(** * Call access hook ([useCallAccess]) of the Call web client

    A shallow embedding of the React hook [useCallAccess]: its three
    asynchronous functions ([fetchCreatorInfo], [checkAccess],
    [handleRequestAccess]), the two effects that start them, and a small
    event-loop machine (renders, interval timer, in-flight fetches) on which
    the temporal properties are stated. *)

From Stdlib Require Import ZArith String List Bool Lia.
From stdpp Require Import base option list strings gmap sorting.

Open Scope string_scope.
Open Scope Z_scope.
Open Scope list_scope.

(** ** JavaScript values

    [response.json()] is typed [any]: whatever the server sent reaches the
    dispatch calls unchecked, so payloads are JavaScript values.  Numbers are
    integers here; the hook only ever tests a number for being zero. *)

#[warnings="-register-all"]
Inductive JsVal : Type :=
  | JUndefined
  | JNull
  | JBool (b : bool)
  | JNum (n : Z)
  | JStr (s : string)
  | JArr (items : list JsVal)
  | JObj (fields : list (string * JsVal)).

(** [!!v] *)
Definition truthy (v : JsVal) : bool :=
  match v with
  | JUndefined | JNull => false
  | JBool b => b
  | JNum n => negb (n =? 0)
  | JStr s => negb (String.eqb s "")
  | JArr _ | JObj _ => true
  end.

(** [a || b] *)
Definition js_or (a b : JsVal) : JsVal := if truthy a then a else b.

(** Own property of an object given by its list of fields (keys distinct,
    the first match is the property). *)
Fixpoint field (k : string) (fs : list (string * JsVal)) : JsVal :=
  match fs with
  | [] => JUndefined
  | (k', v) :: rest => if String.eqb k k' then v else field k rest
  end.

Inductive Exn : Type :=
  | FetchRejected (reason : string)   (* the promise of [fetch] rejects *)
  | JsonSyntaxError                   (* [response.json()] rejects *)
  | TypeError.                        (* property read on null/undefined *)

(** ** Session state and actions *)

(** Modelled from the spec: the call-context state ([@/contexts/call-context]
    is not part of the sources).  Only the fields the hook reads or writes
    are kept: [callId] (null or a string), [joined], and the four fields the
    hook exposes. *)
Record State : Type := mkState {
  callId : option string;
  joined : bool;
  hasAccess : JsVal;
  isCreator : JsVal;
  isRequestingAccess : bool;
  creatorInfo : JsVal
}.

Inductive Action : Type :=
  | SET_CREATOR_INFO (payload : JsVal)
  | SET_HAS_ACCESS (payload : JsVal)
  | SET_CREATOR (payload : JsVal)
  | SET_REQUESTING_ACCESS (payload : bool).

(** Modelled from the spec: the reducer behind [dispatch] lives in
    [@/contexts/call-context], which is not part of the sources.  Following
    the spec, each action stores its payload in the field it names
    ([SET_CREATOR] in [isCreator]) and leaves the other fields alone. *)
Definition reducer (st : State) (a : Action) : State :=
  match a with
  | SET_CREATOR_INFO v =>
      mkState (callId st) (joined st) (hasAccess st) (isCreator st)
              (isRequestingAccess st) v
  | SET_HAS_ACCESS v =>
      mkState (callId st) (joined st) v (isCreator st)
              (isRequestingAccess st) (creatorInfo st)
  | SET_CREATOR v =>
      mkState (callId st) (joined st) (hasAccess st) v
              (isRequestingAccess st) (creatorInfo st)
  | SET_REQUESTING_ACCESS b =>
      mkState (callId st) (joined st) (hasAccess st) (isCreator st)
              b (creatorInfo st)
  end.

(** [session.user]: possibly absent, with a possibly absent id. *)
Record User : Type := mkUser { id : option string }.

(** [!user?.id || user.id === "guest"] *)
Definition isGuest (user : option User) : bool :=
  match user with
  | None => true
  | Some u =>
      match id u with
      | None => true
      | Some s => String.eqb s "" || String.eqb s "guest"
      end
  end.

(** [user?.id], as compared in the dependency arrays. *)
Definition user_id (user : option User) : option string :=
  match user with
  | None => None
  | Some u => id u
  end.

(** [!!state.callId]: the call identifier when it is a non-empty string. *)
Definition call_of (st : State) : option string :=
  match callId st with
  | Some c => if String.eqb c "" then None else Some c
  | None => None
  end.

(** ** HTTP *)

Inductive Method : Type := GET | POST.
Inductive Endpoint : Type := Creator | CheckAccess | RequestJoin.

#[export] Instance Method_eq_dec : EqDecision Method.
Proof. solve_decision. Defined.
#[export] Instance Endpoint_eq_dec : EqDecision Endpoint.
Proof. solve_decision. Defined.

(** A request of the hook; all three are sent with [credentials: "include"]. *)
Record Request : Type := mkRequest {
  req_method : Method;
  req_call : string;
  req_endpoint : Endpoint;
  req_json_header : bool     (* Content-Type: application/json *)
}.

Definition endpoint_name (e : Endpoint) : string :=
  match e with
  | Creator => "creator"
  | CheckAccess => "check-access"
  | RequestJoin => "request-join"
  end.

(** [`${process.env.NEXT_PUBLIC_BACKEND_URL}/api/calls/${callId}/...`] *)
Definition url (backend_url : string) (r : Request) : string :=
  backend_url +:+ "/api/calls/" +:+ req_call r +:+ "/" +:+
  endpoint_name (req_endpoint r).

(** A response: its status and its body as [response.json()] parses it
    ([None] when the body is not JSON and the parse rejects). *)
Record Response : Type := mkResponse {
  status : Z;
  body : option JsVal
}.

(** [response.ok] *)
Definition ok (r : Response) : bool := (200 <=? status r) && (status r <=? 299).

Arguments ok : simpl never.

Inductive FetchResult : Type :=
  | Rejected (reason : string)
  | Responded (r : Response).

(** ** Asynchronous programs *)

Inductive Cmd : Type :=
  | Dispatch (a : Action)
  | ToastInfo (msg : string)
  | ToastSuccess (msg : string)
  | ToastError (msg : JsVal)
  | ConsoleError (msg : string) (err : Exn).

(** The body of an async function: it returns, throws, performs a command,
    or suspends on a fetch and resumes with its outcome. *)
Inductive Prog (A : Type) : Type :=
  | Ret (a : A)
  | Throw (e : Exn)
  | Do (c : Cmd) (k : Prog A)
  | Await (req : Request) (k : FetchResult -> Prog A).

Arguments Ret {A} a.
Arguments Throw {A} e.
Arguments Do {A} c k.
Arguments Await {A} req k.

Fixpoint bind {A B : Type} (p : Prog A) (f : A -> Prog B) : Prog B :=
  match p with
  | Ret a => f a
  | Throw e => Throw e
  | Do c k => Do c (bind k f)
  | Await req k => Await req (fun r => bind (k r) f)
  end.

#[export] Instance prog_ret : MRet Prog := fun A a => Ret a.
#[export] Instance prog_bind : MBind Prog := fun A B f p => bind p f.

(** [try { p } catch (e) { h e }] *)
Fixpoint try_catch {A : Type} (p : Prog A) (h : Exn -> Prog A) : Prog A :=
  match p with
  | Ret a => Ret a
  | Throw e => h e
  | Do c k => Do c (try_catch k h)
  | Await req k => Await req (fun r => try_catch (k r) h)
  end.

(** [try { p } finally { f }] *)
Fixpoint finally {A : Type} (p : Prog A) (f : Prog unit) : Prog A :=
  match p with
  | Ret a => bind f (fun _ => Ret a)
  | Throw e => bind f (fun _ => Throw e)
  | Do c k => Do c (finally k f)
  | Await req k => Await req (fun r => finally (k r) f)
  end.

Definition perform (c : Cmd) : Prog unit := Do c (Ret tt).
Definition dispatch (a : Action) : Prog unit := perform (Dispatch a).

(** [await fetch(...)] *)
Definition fetch (req : Request) : Prog Response :=
  Await req (fun r =>
    match r with
    | Rejected reason => Throw (FetchRejected reason)
    | Responded resp => Ret resp
    end).

(** [await response.json()] *)
Definition json (resp : Response) : Prog JsVal :=
  match body resp with
  | Some v => Ret v
  | None => Throw JsonSyntaxError
  end.

(** [data.k], for the keys the hook reads ([creator], [hasAccess],
    [isCreator], [error]); none of them is inherited from a prototype. *)
Definition prop (data : JsVal) (k : string) : Prog JsVal :=
  match data with
  | JUndefined | JNull => Throw TypeError
  | JObj fs => Ret (field k fs)
  | _ => Ret JUndefined
  end.

(** ** The three async functions of [useCallAccess] *)

Definition fetchCreatorInfo (state : State) : Prog unit :=
  match call_of state with
  | None => Ret tt
  | Some c =>
      try_catch
        (response ← fetch (mkRequest GET c Creator false);
         if ok response then
           data ← json response;
           creator ← prop data "creator";
           dispatch (SET_CREATOR_INFO creator)
         else if status response =? 404 then
           dispatch (SET_CREATOR_INFO JNull);;
           dispatch (SET_HAS_ACCESS (JBool true));;
           dispatch (SET_CREATOR (JBool false))
         else Ret tt)
        (fun error => perform (ConsoleError "Error fetching creator info:" error))
  end.

Definition checkAccess (c : string) : Prog unit :=
  try_catch
    (response ← fetch (mkRequest GET c CheckAccess false);
     if ok response then
       data ← json response;
       has ← prop data "hasAccess";
       dispatch (SET_HAS_ACCESS has);;
       creator ← prop data "isCreator";
       dispatch (SET_CREATOR creator)
     else if status response =? 404 then
       dispatch (SET_HAS_ACCESS (JBool true));;
       dispatch (SET_CREATOR (JBool false))
     else Ret tt)
    (fun error => perform (ConsoleError "Error checking call access:" error)).

Definition handleRequestAccess (state : State) (user : option User) : Prog unit :=
  match call_of state with
  | None => Ret tt
  | Some c =>
      if isGuest user then
        perform (ToastInfo "Joining as guest. No approval required.")
      else
        dispatch (SET_REQUESTING_ACCESS true);;
        finally
          (try_catch
             (response ← fetch (mkRequest POST c RequestJoin true);
              if ok response then
                perform (ToastSuccess
                  "Request sent! Please wait for the host to approve.")
              else
                data ← json response;
                message ← prop data "error";
                perform (ToastError
                  (js_or message (JStr "Failed to send request"))))
             (fun error =>
                perform (ConsoleError "Error requesting access:" error);;
                perform (ToastError (JStr "Failed to send request"))))
          (dispatch (SET_REQUESTING_ACCESS false))
  end.

(** ** The event loop around the hook

    The hook runs inside React and the browser: a render re-runs the effects
    whose dependencies changed (after the clean-up of their previous run),
    [setInterval] keeps a table of timers, a fetch stays in flight until the
    backend answers, and the answers come back in any order.  Time is counted
    in milliseconds and a timer fires at its due time. *)

Record Timer : Type := mkTimer {
  period : Z;
  due : Z;
  callback : Prog unit
}.

Inductive Obs : Type :=
  | Requested (req : Request)   (* a fetch leaves for the backend *)
  | Performed (c : Cmd)
  | Unhandled (e : Exn).        (* an async function rejects *)

Record World : Type := mkWorld {
  session : State;                       (* [state] of the call context *)
  user : option User;                    (* [session.user] *)
  now : Z;
  timers : gmap nat Timer;               (* the browser's interval table *)
  next_timer : nat;
  cleanup : option nat;                  (* [() => clearInterval(interval)] *)
  inflight : list (Request * (FetchResult -> Prog unit));
  log : list (Z * Obs)
}.

Definition set_session (st : State) (w : World) : World :=
  mkWorld st (user w) (now w) (timers w) (next_timer w) (cleanup w)
          (inflight w) (log w).

Definition set_user (u : option User) (w : World) : World :=
  mkWorld (session w) u (now w) (timers w) (next_timer w) (cleanup w)
          (inflight w) (log w).

Definition set_now (t : Z) (w : World) : World :=
  mkWorld (session w) (user w) t (timers w) (next_timer w) (cleanup w)
          (inflight w) (log w).

Definition set_timers (ts : gmap nat Timer) (w : World) : World :=
  mkWorld (session w) (user w) (now w) ts (next_timer w) (cleanup w)
          (inflight w) (log w).

Definition set_cleanup (c : option nat) (w : World) : World :=
  mkWorld (session w) (user w) (now w) (timers w) (next_timer w) c
          (inflight w) (log w).

Definition set_inflight (l : list (Request * (FetchResult -> Prog unit)))
    (w : World) : World :=
  mkWorld (session w) (user w) (now w) (timers w) (next_timer w) (cleanup w)
          l (log w).

Definition observe (o : Obs) (w : World) : World :=
  mkWorld (session w) (user w) (now w) (timers w) (next_timer w) (cleanup w)
          (inflight w) (log w ++ [(now w, o)]).

Definition do_cmd (c : Cmd) (w : World) : World :=
  let w' := observe (Performed c) w in
  match c with
  | Dispatch a => set_session (reducer (session w) a) w'
  | _ => w'
  end.

(** Run an async function until it finishes or suspends on a fetch. *)
Fixpoint exec (p : Prog unit) (w : World) : World :=
  match p with
  | Ret _ => w
  | Throw e => observe (Unhandled e) w
  | Do c k => exec k (do_cmd c w)
  | Await req k =>
      set_inflight (inflight w ++ [(req, k)]) (observe (Requested req) w)
  end.

Definition setInterval (cb : Prog unit) (ms : Z) (w : World) : nat * World :=
  let i := next_timer w in
  (i, mkWorld (session w) (user w) (now w)
              (<[i := mkTimer ms (now w + ms) cb]> (timers w)) (S i)
              (cleanup w) (inflight w) (log w)).

Definition clearInterval (i : nat) (w : World) : World :=
  set_timers (delete i (timers w)) w.

(** First effect, dependencies [state.callId, dispatch]; no clean-up. *)
Definition creatorEffect (w : World) : World :=
  exec (fetchCreatorInfo (session w)) w.

(** Second effect, dependencies [state.callId, user?.id, state.joined,
    dispatch]; its clean-up clears the interval it has set. *)
Definition accessEffect (w : World) : World :=
  let state := session w in
  if joined state then set_cleanup None w
  else
    match call_of state with
    | None => set_cleanup None w
    | Some c =>
        if isGuest (user w) then
          set_cleanup None
            (exec (dispatch (SET_HAS_ACCESS (JBool true));;
                   dispatch (SET_CREATOR (JBool false))) w)
        else
          let '(interval, w') :=
            setInterval (checkAccess c) 3000 (exec (checkAccess c) w) in
          set_cleanup (Some interval) w'
    end.

(** The clean-up of the previous run of the second effect. *)
Definition run_cleanup (w : World) : World :=
  match cleanup w with
  | Some i => set_cleanup None (clearInterval i w)
  | None => w
  end.

Inductive Event : Type :=
  | EvSetCallId (c : option string)   (* the context gets a new [callId] *)
  | EvSetJoined (b : bool)            (* the context gets a new [joined] *)
  | EvSetUser (u : option User)       (* the auth session changes *)
  | EvWait (d : Z)                    (* [d] ms pass and no timer is due *)
  | EvTick (i : nat)                  (* timer [i] fires *)
  | EvDeliver (n : nat) (r : FetchResult)  (* the [n]-th fetch in flight settles *)
  | EvRequestAccess.                  (* the UI calls [handleRequestAccess] *)

Definition with_callId (c : option string) (st : State) : State :=
  mkState c (joined st) (hasAccess st) (isCreator st)
          (isRequestingAccess st) (creatorInfo st).

Definition with_joined (b : bool) (st : State) : State :=
  mkState (callId st) b (hasAccess st) (isCreator st)
          (isRequestingAccess st) (creatorInfo st).

Definition may_wait (d : Z) (w : World) : bool :=
  (0 <=? d) &&
  bool_decide (map_Forall (fun _ t => now w + d <= due t) (timers w)).

Definition step (w : World) (ev : Event) : World :=
  match ev with
  | EvSetCallId c =>
      if bool_decide (c = callId (session w)) then w
      else
        accessEffect (creatorEffect
          (run_cleanup (set_session (with_callId c (session w)) w)))
  | EvSetJoined b =>
      if bool_decide (b = joined (session w)) then w
      else accessEffect (run_cleanup (set_session (with_joined b (session w)) w))
  | EvSetUser u =>
      if bool_decide (user_id u = user_id (user w)) then set_user u w
      else accessEffect (run_cleanup (set_user u w))
  | EvWait d =>
      if may_wait d w then set_now (now w + d) w else w
  | EvTick i =>
      match timers w !! i with
      | Some t =>
          let fired := Z.max (now w) (due t) in
          exec (callback t)
            (set_timers
               (<[i := mkTimer (period t) (fired + period t) (callback t)]>
                  (timers w))
               (set_now fired w))
      | None => w
      end
  | EvDeliver n r =>
      match inflight w !! n with
      | Some (req, k) => exec (k r) (set_inflight (delete n (inflight w)) w)
      | None => w
      end
  | EvRequestAccess => exec (handleRequestAccess (session w) (user w)) w
  end.

Definition run (w : World) (evs : list Event) : World := fold_left step evs w.

(** The component mounts at time [t0]: both effects run, in order. *)
Definition mount (st : State) (u : option User) (t0 : Z) : World :=
  accessEffect (creatorEffect (mkWorld st u t0 ∅ 1%nat None [] [])).

(** What the log says. *)
Definition requests (w : World) : list (Z * Request) :=
  omap (fun e => match e.2 with Requested r => Some (e.1, r) | _ => None end)
       (log w).

Definition polls (w : World) : list (Z * Request) :=
  filter (fun e => req_endpoint e.2 = CheckAccess) (requests w).

Definition performed (w : World) : list Cmd :=
  omap (fun e => match e.2 with Performed c => Some c | _ => None end) (log w).

(** The rest of an async function once its pending fetch settles with [r]. *)
Fixpoint after_fetch (p : Prog unit) (r : FetchResult) : Prog unit :=
  match p with
  | Await _ k => k r
  | Do _ k => after_fetch k r
  | _ => p
  end.

(** Fetches in flight are those the three functions have issued. *)
Inductive issued : Request -> (FetchResult -> Prog unit) -> Prop :=
  | issued_creator st c :
      call_of st = Some c ->
      issued (mkRequest GET c Creator false) (after_fetch (fetchCreatorInfo st))
  | issued_check c :
      issued (mkRequest GET c CheckAccess false) (after_fetch (checkAccess c))
  | issued_join st u c :
      call_of st = Some c -> isGuest u = false ->
      issued (mkRequest POST c RequestJoin true)
             (after_fetch (handleRequestAccess st u)).

(** The part of the world an async function cannot touch once resumed:
    everything but the four session fields it dispatches to and the log of
    commands. *)
Definition same_env (w w' : World) : Prop :=
  user w' = user w /\ now w' = now w /\ timers w' = timers w /\
  next_timer w' = next_timer w /\ cleanup w' = cleanup w /\
  inflight w' = inflight w /\ requests w' = requests w /\
  callId (session w') = callId (session w) /\
  joined (session w') = joined (session w).

(** Programs that finish without suspending or throwing, and what they do. *)
Fixpoint straight (p : Prog unit) : Prop :=
  match p with
  | Ret _ => True
  | Do _ k => straight k
  | Throw _ | Await _ _ => False
  end.

Fixpoint effects (p : Prog unit) : list Cmd :=
  match p with
  | Do c k => c :: effects k
  | _ => []
  end.

Definition do_cmds (cs : list Cmd) (w : World) : World :=
  fold_left (fun w c => do_cmd c w) cs w.

Definition actions (cs : list Cmd) : list Action :=
  omap (fun c => match c with Dispatch a => Some a | _ => None end) cs.

Definition poll_action (a : Action) : Prop :=
  match a with
  | SET_HAS_ACCESS _ | SET_CREATOR _ => True
  | _ => False
  end.

(** ** Notifications *)

Definition is_toast (c : Cmd) : bool :=
  match c with
  | ToastInfo _ | ToastSuccess _ | ToastError _ => true
  | _ => false
  end.

(** The notifications among the commands performed. *)
Definition toasts (cs : list Cmd) : list Cmd := List.filter is_toast cs.

(** The text of the error notification in the words of the spec: the error
    message the server put in the response body when there is one (a
    non-empty [error]), the default text otherwise. *)
Definition server_message (resp : Response) : option JsVal :=
  match body resp with
  | Some (JObj fs) => if truthy (field "error" fs) then Some (field "error" fs) else None
  | _ => None
  end.

Definition notification_text (resp : Response) : JsVal :=
  match server_message resp with
  | Some m => m
  | None => JStr "Failed to send request"
  end.

(** ** Invariants of the event loop *)

Definition issued_all (w : World) : Prop :=
  Forall (fun e => issued e.1 e.2) (inflight w).

(** The interval table holds nothing but the timer of the current run of the
    access effect, which exists only for an identified user on a call not yet
    joined; that timer has period 3000, polls the current call, and is due
    within the next 3000 ms. *)
Definition timer_inv (w : World) : Prop :=
  match cleanup w with
  | None => timers w = ∅
  | Some i =>
      exists c d,
        timers w = {[ i := mkTimer 3000 d (checkAccess c) ]} /\
        call_of (session w) = Some c /\
        joined (session w) = false /\
        isGuest (user w) = false /\
        now w <= d <= now w + 3000
  end.

Definition Inv (w : World) : Prop := issued_all w /\ timer_inv w.

Definition idle (w : World) : Prop := cleanup w = None /\ timers w = ∅.

Definition timer_shape (w : World) : Prop :=
  match cleanup w with
  | None => timers w = ∅
  | Some i => exists t, timers w = {[ i := t ]}
  end.

(** ** Check-access requests in the log *)

Definition poll (c : string) : Request := mkRequest GET c CheckAccess false.

(** A check-access request may leave only for the current call, while the
    call is not joined and the user is identified. *)
Definition poll_allowed (w' : World) (new : list (Z * Request)) : Prop :=
  new = [] \/
  exists c, new = [(now w', poll c)] /\
            call_of (session w') = Some c /\
            joined (session w') = false /\
            isGuest (user w') = false.

(** Runs in which [joined] is not set back to false, and runs in which
    [callId] is not set at all. *)
Definition stays_joined (evs : list Event) : bool :=
  forallb (fun e => match e with EvSetJoined b => b | _ => true end) evs.

Definition keeps_callId (evs : list Event) : bool :=
  forallb (fun e => match e with EvSetCallId _ => false | _ => true end) evs.

(** What a step can do to the inputs of the hook: nothing, unless the event
    is the one that sets them. *)
Definition same_inputs (w w' : World) : Prop :=
  user w' = user w /\
  callId (session w') = callId (session w) /\
  joined (session w') = joined (session w).

(** ** Runs of a guest *)

(** Runs in which the user stays a guest. *)
Definition guests_only (evs : list Event) : bool :=
  forallb (fun e => match e with EvSetUser u => isGuest u | _ => true end) evs.

(** ** A call the backend does not know *)

Definition is_404 (r : FetchResult) : bool :=
  match r with
  | Responded resp => status resp =? 404
  | Rejected _ => false
  end.

(** The two probes: the creator fetch and the check-access poll. *)
Definition is_probe (req : Request) : bool :=
  match req_endpoint req with
  | Creator | CheckAccess => true
  | RequestJoin => false
  end.

(** The backend answers 404 to every probe delivered along the run. *)
Definition probe_404 (w : World) (e : Event) : bool :=
  match e with
  | EvDeliver n r =>
      match inflight w !! n with
      | Some (req, _) => if is_probe req then is_404 r else true
      | None => true
      end
  | _ => true
  end.

Fixpoint probes_404 (w : World) (evs : list Event) : bool :=
  match evs with
  | [] => true
  | e :: evs' => probe_404 w e && probes_404 (step w e) evs'
  end.

Definition is_creator_fetch (e : Request * (FetchResult -> Prog unit)) : bool :=
  match req_endpoint e.1 with
  | Creator => true
  | _ => false
  end.

(** A creator fetch is still in flight. *)
Definition creator_pending (w : World) : bool :=
  existsb is_creator_fetch (inflight w).

(** The state of an open (anonymous) room. *)
Definition open_room (st : State) : Prop :=
  hasAccess st = JBool true /\ isCreator st = JBool false /\
  creatorInfo st = JNull.

(** Either the creator fetch is still to be answered, or the room is open. *)
Definition pending_or_open (w : World) : Prop :=
  creator_pending w = true \/ open_room (session w).

(** ** Concrete sessions *)

Definition call_abc : State :=
  mkState (Some "abc123") false (JBool false) (JBool false) false JUndefined.
Definition alice : option User := Some (mkUser (Some "u1")).
Definition guest_user : option User := Some (mkUser (Some "guest")).
Definition not_found : FetchResult := Responded (mkResponse 404 None).
Definition server_error : FetchResult := Responded (mkResponse 500 None).
Definition already_requested : Response :=
  mkResponse 409 (Some (JObj [("error", JStr "Already requested")])).
Definition alice_world : World := mount call_abc alice 0.
Definition guest_world : World := mount call_abc guest_user 0.

(** ** More about the hook: what the log may contain *)

(** The three requests the hook can send, as the source writes them. *)
Definition request_ok (r : Request) : bool :=
  negb (String.eqb (req_call r) "") &&
  match req_endpoint r with
  | RequestJoin =>
      bool_decide (req_method r = POST) && req_json_header r
  | Creator | CheckAccess =>
      bool_decide (req_method r = GET) && negb (req_json_header r)
  end.

Definition entry_ok (o : Obs) : bool :=
  match o with
  | Requested r => request_ok r
  | Performed _ => true
  | Unhandled _ => false
  end.

Definition log_ok (w : World) : bool :=
  forallb (fun e => entry_ok e.2) (log w).

(** The creator fetches among the requests sent. *)
Definition creator_fetches (w : World) : list (Z * Request) :=
  filter (fun e => req_endpoint e.2 = Creator) (requests w).

(** The hook has done nothing yet: nothing logged, nothing in flight, no
    timer, and the four fields it exposes are those of [st]. *)
Definition untouched (st : State) (w : World) : Prop :=
  log w = [] /\ inflight w = [] /\ timers w = ∅ /\ cleanup w = None /\
  hasAccess (session w) = hasAccess st /\
  isCreator (session w) = isCreator st /\
  isRequestingAccess (session w) = isRequestingAccess st /\
  creatorInfo (session w) = creatorInfo st.

Definition join_request (c : string) : Request :=
  mkRequest POST c RequestJoin true.

Definition default_error : JsVal := JStr "Failed to send request".

Definition creator_request (c : string) : Request :=
  mkRequest GET c Creator false.

(** * Room identifiers ([generateRoomId] of the create-room page) *)

Definition characters : string := "abcdefghijklmnopqrstuvwxyz0123456789".

(** [s.charAt(i)]: the empty string when [i] is out of range. *)
Definition charAt (s : string) (i : nat) : string :=
  match String.get i s with
  | Some a => String a ""
  | None => ""
  end.

(** The loop of [generateRoomId], with [n] iterations left at counter [i];
    [index i] is the value of
    [Math.floor(Math.random() * characters.length)] in iteration [i]. *)
Fixpoint room_loop (index : nat -> nat) (n i : nat) (result : string) : string :=
  match n with
  | O => result
  | S n' =>
      room_loop index n' (S i) (result +:+ charAt characters (index i))
  end.

Definition generateRoomId (index : nat -> nat) : string :=
  room_loop index 8 0 "".

(** * The waitlist form ([waitlist.tsx]) *)

(** ** Local storage

    What the page sees of the browser: whether there is a [window] at all
    (there is none while rendering on the server), whether reading from
    [localStorage] throws (storage disabled), which writes it accepts (it
    throws when the quota is exceeded or storage is disabled), and the items
    it holds. *)
Record Browser : Type := mkBrowser {
  window_defined : bool;
  storage_readable : bool;
  storage_accepts : string -> string -> bool;
  items : gmap string string
}.

(** [localStorage.getItem(key)]: [None] when it throws. *)
Definition localStorage_getItem (key : string) (b : Browser)
    : option (option string) :=
  if storage_readable b then Some (items b !! key) else None.

(** [localStorage.setItem(key, value)]: [None] when it throws. *)
Definition localStorage_setItem (key value : string) (b : Browser)
    : option Browser :=
  if storage_accepts b key value then
    Some (mkBrowser (window_defined b) (storage_readable b)
                    (storage_accepts b) (<[key := value]> (items b)))
  else None.

(** What the waitlist code does to the outside. *)
Inductive Message : Type :=
  | Text (s : string)
  | StringOf (v : JsVal)      (* [String(v)] for a [v] that is not a string *)
  | EngineText (e : Exn).     (* the message of an error the engine raised *)

Inductive WEffect : Type :=
  | LogError (msg key value : string)
  | InvalidateQueries
  | SetQueryData (count : Z)
  | ConfettiBurst
  | WToastSuccess (msg : string)
  | WToastError (msg : Message).

Definition getLocalStorageItem (key : string) (b : Browser) : option string :=
  if negb (window_defined b) then None
  else
    match localStorage_getItem key b with
    | Some stored => stored
    | None => None                       (* catch *)
    end.

Definition setLocalStorageItem (key value : string) (b : Browser)
    : Browser * list WEffect :=
  if negb (window_defined b) then (b, [])
  else
    match localStorage_setItem key value b with
    | Some b' => (b', [])
    | None =>                            (* catch *)
        (b, [LogError "Failed to set localStorage item" key value])
    end.

(** ** The two fetches *)

(** What an async function rejects with: an [Error] (any kind) with its
    message, or something that is not an [Error]. *)
Inductive Thrown : Type :=
  | ErrorWith (message : Message)
  | NotAnError (v : JsVal).

(** The message of [new Error(v)]. *)
Definition error_message (v : JsVal) : Message :=
  match v with
  | JStr s => Text s
  | _ => StringOf v
  end.

(** [joinWaitlist(email)]: how it settles once its fetch has. *)
Definition joinWaitlist (r : FetchResult) : Thrown + unit :=
  match r with
  | Rejected reason => inl (ErrorWith (EngineText (FetchRejected reason)))
  | Responded response =>
      if negb (ok response) then
        let errorData :=
          match body response with
          | Some data => data
          | None => JObj []              (* [.catch(() => ({}))] *)
          end in
        match errorData with
        | JUndefined | JNull => inl (ErrorWith (EngineText TypeError))
        | JObj fs =>
            inl (ErrorWith (error_message
                   (js_or (field "error" fs) (JStr "Failed to join waitlist"))))
        | _ => inl (ErrorWith (Text "Failed to join waitlist"))
        end
      else inr tt
  end.

(** ** The component state *)

Record Waitlist : Type := mkWaitlist {
  hook_isClient : bool;       (* [isClient] of [useWaitlistCount] *)
  success : bool;             (* [success] of [useWaitlistCount] *)
  data : option Z;            (* [query.data?.count] *)
  isClient : bool;            (* [isClient] of [WaitlistForm] *)
  localSuccess : bool
}.

Definition waitlist_key : string := "waitlist_success".

(** [onSuccess] of the mutation. *)
Definition onSuccess (st : Waitlist) (b : Browser)
    : Waitlist * Browser * list WEffect :=
  let newCount :=
    (match data st with Some count => count | None => 0 end) + 1 in
  let '(b', logged) := setLocalStorageItem waitlist_key "true" b in
  (mkWaitlist (hook_isClient st) true (Some newCount) (isClient st)
              (localSuccess st),
   b',
   [InvalidateQueries; SetQueryData newCount] ++ logged ++
   [ConfettiBurst; WToastSuccess "You're on the waitlist! 🎉"]).

(** [onError] of the mutation. *)
Definition onError (error : Thrown) : list WEffect :=
  let errorMessage :=
    match error with
    | ErrorWith message => message
    | NotAnError _ => Text "Something went wrong. Please try again."
    end in
  [WToastError errorMessage].

(** The effect of [WaitlistForm] with dependencies
    [waitlist.success, isClient]. *)
Definition successEffect (st : Waitlist) (b : Browser)
    : Waitlist * Browser * list WEffect :=
  if negb (isClient st) then (st, b, [])
  else if success st then
    let '(b', logged) := setLocalStorageItem waitlist_key "true" b in
    (mkWaitlist (hook_isClient st) (success st) (data st) (isClient st) true,
     b', logged)
  else
    match getLocalStorageItem waitlist_key b with
    | Some stored =>
        if String.eqb stored "true" then
          (mkWaitlist (hook_isClient st) (success st) (data st) (isClient st)
                      true, b, [])
        else (st, b, [])
    | None => (st, b, [])
    end.

(** The page is loaded in browser [b]: the first render has every flag
    false, its effects set both [isClient] flags (and [successEffect]
    returns at once), and the render that follows runs [successEffect]
    again. *)
Definition load (b : Browser) : Waitlist * Browser * list WEffect :=
  successEffect (mkWaitlist true false None true false) b.

(** The mutation started by the form settles with the outcome [r] of its
    fetch; when [success] turns true the component renders again and
    [successEffect] runs. *)
Definition settle (r : FetchResult) (st : Waitlist) (b : Browser)
    : Waitlist * Browser * list WEffect :=
  match joinWaitlist r with
  | inr _ =>
      let '(st1, b1, done) := onSuccess st b in
      if success st then (st1, b1, done)
      else
        let '(st2, b2, logged) := successEffect st1 b1 in
        (st2, b2, done ++ logged)
  | inl error => (st, b, onError error)
  end.

(** A visit: the page is loaded and the mutations of the visit settle one
    after the other. *)
Definition visit (b : Browser) (rs : list FetchResult)
    : Waitlist * Browser * list WEffect :=
  fold_left
    (fun acc r =>
       let '(st, b, done) := acc in
       let '(st', b', more) := settle r st b in
       (st', b', done ++ more))
    rs (load b).

(** What [WaitlistForm] renders. *)
Inductive View : Type := Placeholder | Welcome | Form.

Definition view (st : Waitlist) : View :=
  if negb (isClient st) then Placeholder
  else if localSuccess st then Welcome else Form.

(** A join that went through, and the visits in which one did. *)
Definition joined_ok (r : FetchResult) : bool :=
  match joinWaitlist r with
  | inr _ => true
  | inl _ => false
  end.

(** Two browsers that differ at most in the items they hold. *)
Definition same_browser (b b' : Browser) : Prop :=
  window_defined b' = window_defined b /\
  storage_readable b' = storage_readable b /\
  storage_accepts b' = storage_accepts b.

(** The step of [visit]. *)
Definition visit_step (acc : Waitlist * Browser * list WEffect)
    (r : FetchResult) : Waitlist * Browser * list WEffect :=
  let '(st, b, done) := acc in
  let '(st', b', more) := settle r st b in
  (st', b', done ++ more).

(** The flag is in the storage. *)
Definition flagged (b : Browser) : Prop :=
  items b !! waitlist_key = Some "true".

(** * The team routes ([teamsRoutes])

    The tables are lists of rows, in the order of insertion, with the
    columns the handlers use; the schema and its constraints are not part of
    the sources, so none is built in (where a property needs one, it is a
    hypothesis).  A query is a filter over a table. *)

Record UserRow : Type := mkUserRow {
  u_id : string;
  u_email : string;
  u_name : string;
  u_image : option string
}.

Record TeamRow : Type := mkTeamRow {
  t_id : string;
  t_name : string;
  t_creatorId : string;
  t_createdAt : Z
}.

Record MemberRow : Type := mkMemberRow {
  m_teamId : string;
  m_userId : string;
  m_createdAt : Z
}.

Record DB : Type := mkDB {
  users : list UserRow;
  teams : list TeamRow;
  teamMembers : list MemberRow
}.

#[export] Instance MemberRow_eq_dec : EqDecision MemberRow.
Proof. solve_decision. Defined.

(** What a handler gets with a request: the user of the session
    ([c.get("user")], here its [id]; [None] when there is none), the body as
    [c.req.json()] parses it ([None] when that throws), the [teamId] of the
    route, the identifier [createId()] returns, and the values of the
    successive [new Date()]. *)
Record Ctx : Type := mkCtx {
  auth : option string;
  json_body : option JsVal;
  teamId_param : string;
  fresh_id : string;
  dates : nat -> Z
}.

(** The two libraries the handlers lean on: which strings zod takes for an
    e-mail address, and the messages zod words itself. *)
Record Lib : Type := mkLib {
  is_email : string -> bool;
  type_message : string -> JsVal -> string
}.

Record MemberView : Type := mkMemberView {
  mv_user_id : string;
  mv_name : string;
  mv_email : string;
  mv_image : option string
}.

Record TeamView : Type := mkTeamView {
  tv_id : string;
  tv_name : string;
  tv_creator_id : string;
  tv_members : list MemberView
}.

Inductive Payload : Type :=
  | JsonMessage (message : string)      (* [{ message }] *)
  | JsonTeams (views : list TeamView).  (* [{ teams }] *)

Record Reply : Type := mkReply {
  code : Z;
  payload : Payload
}.

Definition message_reply (s : string) (status : Z) : Reply :=
  mkReply status (JsonMessage s).

(** [!user || !user.id] *)
Definition unauthorized (c : Ctx) : bool :=
  match auth c with
  | None => true
  | Some uid => String.eqb uid ""
  end.

(** ** Validation *)

Inductive Issue : Type :=
  | Custom (message : string)                    (* a message of the source *)
  | Builtin (expected : string) (received : JsVal).

Definition issue_message (lib : Lib) (i : Issue) : string :=
  match i with
  | Custom m => m
  | Builtin expected received => type_message lib expected received
  end.

(** [result.error.errors[0]?.message || "Invalid input"] *)
Definition first_message (lib : Lib) (i : Issue) : string :=
  let m := issue_message lib i in
  if String.eqb m "" then "Invalid input" else m.

(** [z.string().email("Invalid email format")] *)
Definition email_issues (lib : Lib) (v : JsVal) : list Issue :=
  match v with
  | JStr s => if is_email lib s then [] else [Custom "Invalid email format"]
  | _ => [Builtin "string" v]
  end.

(** [z.string().min(1, "Team name is required")] *)
Definition name_issues (v : JsVal) : list Issue :=
  match v with
  | JStr s => if String.eqb s "" then [Custom "Team name is required"] else []
  | _ => [Builtin "string" v]
  end.

Definition strings_of (items : list JsVal) : list string :=
  omap (fun v => match v with JStr s => Some s | _ => None end) items.

(** [createTeamSchema.safeParse(body)]: the issues, in the order zod finds
    them, and the data when there is none. *)
Definition create_issues (lib : Lib) (b : JsVal) : list Issue :=
  match b with
  | JObj fs =>
      name_issues (field "name" fs) ++
      match field "members" fs with
      | JUndefined => []                         (* [.optional()] *)
      | JArr items => flat_map (email_issues lib) items
      | v => [Builtin "array" v]
      end
  | _ => [Builtin "object" b]
  end.

Definition create_name (b : JsVal) : string :=
  match b with
  | JObj fs => match field "name" fs with JStr s => s | _ => "" end
  | _ => ""
  end.

Definition create_members (b : JsVal) : option (list string) :=
  match b with
  | JObj fs =>
      match field "members" fs with
      | JArr items => Some (strings_of items)
      | _ => None
      end
  | _ => None
  end.

(** [addMembersSchema.safeParse(body)] *)
Definition add_issues (lib : Lib) (b : JsVal) : list Issue :=
  match b with
  | JObj fs =>
      match field "emails" fs with
      | JArr items =>
          (match items with [] => [Builtin "nonempty" (JArr [])] | _ => [] end)
          ++ flat_map (email_issues lib) items
      | v => [Builtin "array" v]
      end
  | _ => [Builtin "object" b]
  end.

Definition add_emails (b : JsVal) : list string :=
  match b with
  | JObj fs =>
      match field "emails" fs with
      | JArr items => strings_of items
      | _ => []
      end
  | _ => []
  end.

(** ** Queries *)

(** [select().from(userTable).where(inArray(userTable.email, emails))] *)
Definition users_with_email (db : DB) (emails : list string) : list UserRow :=
  filter (fun u => u_email u ∈ emails) (users db).

(** [emails.filter((email) => !foundEmails.includes(email))] *)
Definition not_registered (found : list UserRow) (emails : list string)
    : list string :=
  filter (fun email => email ∉ u_email <$> found) emails.

Definition not_registered_reply (found : list UserRow) (emails : list string)
    : Reply :=
  message_reply
    ("Email(s) not registered: " +:+
     String.concat ", " (not_registered found emails)) 400.

(** The rows of [teamMembers] for one team and one user. *)
Definition membership (db : DB) (tid uid : string) : list MemberRow :=
  filter (fun m => m_teamId m = tid /\ m_userId m = uid) (teamMembers db).

(** ** POST /create *)

Definition create (lib : Lib) (c : Ctx) (db : DB) : Reply * DB :=
  match auth c with
  | None => (message_reply "Unauthorized" 401, db)
  | Some uid =>
      if String.eqb uid "" then (message_reply "Unauthorized" 401, db)
      else
        match json_body c with
        | None => (message_reply "Invalid JSON body" 400, db)
        | Some b =>
            match create_issues lib b with
            | i :: _ => (message_reply (first_message lib i) 400, db)
            | [] =>
                let name := create_name b in
                let members := create_members b in
                let lookup :=
                  match members with
                  | Some (e :: es) =>
                      let found := users_with_email db (e :: es) in
                      if bool_decide (length found = length (e :: es))
                      then inr found
                      else inl (not_registered_reply found (e :: es))
                  | _ => inr []
                  end in
                match lookup with
                | inl r => (r, db)
                | inr found =>
                    let teamId := fresh_id c in
                    let team := mkTeamRow teamId name uid (dates c 0) in
                    let memberIds := u_id <$> found in
                    let memberIds :=
                      if bool_decide (uid ∈ memberIds) then memberIds
                      else memberIds ++ [uid] in
                    let teamMemberRows :=
                      imap (fun k id => mkMemberRow teamId id (dates c (S k)))
                           memberIds in
                    (message_reply "Team created" 200,
                     mkDB (users db) (teams db ++ [team])
                          (teamMembers db ++ teamMemberRows))
                end
            end
        end
  end.

(** ** POST /:teamId/leave *)

Definition leave (c : Ctx) (db : DB) : Reply * DB :=
  match auth c with
  | None => (message_reply "Unauthorized" 401, db)
  | Some uid =>
      if String.eqb uid "" then (message_reply "Unauthorized" 401, db)
      else
        let teamId := teamId_param c in
        if String.eqb teamId "" then
          (message_reply "Team ID is required" 400, db)
        else
          match membership db teamId uid with
          | [] => (message_reply "You are not a member of this team" 404, db)
          | _ :: _ =>
              (message_reply "Left team successfully" 200,
               mkDB (users db) (teams db)
                    (filter (fun m => ~ (m_teamId m = teamId /\ m_userId m = uid))
                            (teamMembers db)))
          end
  end.

(** ** POST /:teamId/add-members *)

Definition add_members (lib : Lib) (c : Ctx) (db : DB) : Reply * DB :=
  match auth c with
  | None => (message_reply "Unauthorized" 401, db)
  | Some uid =>
      if String.eqb uid "" then (message_reply "Unauthorized" 401, db)
      else
        let teamId := teamId_param c in
        if String.eqb teamId "" then
          (message_reply "Team ID is required" 400, db)
        else
          match json_body c with
          | None => (message_reply "Invalid JSON body" 400, db)
          | Some b =>
              match add_issues lib b with
              | i :: _ => (message_reply (first_message lib i) 400, db)
              | [] =>
                  let emails := add_emails b in
                  let found := users_with_email db emails in
                  if negb (bool_decide (length found = length emails)) then
                    (not_registered_reply found emails, db)
                  else
                    let userIds := u_id <$> found in
                    let existingMembers :=
                      filter (fun m => m_teamId m = teamId /\
                                       m_userId m ∈ userIds)
                             (teamMembers db) in
                    let alreadyMemberIds := m_userId <$> existingMembers in
                    let newMemberIds :=
                      filter (fun id => id ∉ alreadyMemberIds) userIds in
                    match newMemberIds with
                    | [] =>
                        (message_reply
                           "All users are already members of this team" 400,
                         db)
                    | _ :: _ =>
                        let now := dates c 0 in
                        let rows :=
                          (fun id => mkMemberRow teamId id now)
                            <$> newMemberIds in
                        (message_reply "Users added to team" 200,
                         mkDB (users db) (teams db) (teamMembers db ++ rows))
                    end
              end
          end
  end.

(** ** GET / *)

(** [desc(teams.createdAt)]: [a] may come before [b]. *)
Definition newest_first (a b : TeamRow) : Prop := t_createdAt b <= t_createdAt a.

#[export] Instance newest_first_dec : RelDecision newest_first.
Proof. intros a b. unfold newest_first. apply _. Defined.





(** No user belongs twice to the same team. *)
Definition member_pair (m : MemberRow) : string * string :=
  (m_teamId m, m_userId m).

Definition unique_members (db : DB) : Prop :=
  NoDup (member_pair <$> teamMembers db).

(** The request [c] sent by another user, to a database with other teams. *)
Definition as_user (uid : string) (c : Ctx) : Ctx :=
  mkCtx (Some uid) (json_body c) (teamId_param c) (fresh_id c) (dates c).

Definition with_teams (ts : list TeamRow) (db : DB) : DB :=
  mkDB (users db) ts (teamMembers db).

(** The users [create] looks up: those registered under one of the e-mail
    addresses of the body (none when [members] is absent or empty). *)
Definition requested_users (db : DB) (b : JsVal) : list UserRow :=
  match create_members b with
  | Some (e :: es) => users_with_email db (e :: es)
  | _ => []
  end.

(** [if (!memberIds.includes(user.id)) memberIds.push(user.id)] *)
Definition with_creator (uid : string) (memberIds : list string) : list string :=
  if bool_decide (uid ∈ memberIds) then memberIds else memberIds ++ [uid].

(** An e-mail address some user is registered under. *)
Definition registered (db : DB) (e : string) : Prop :=
  e ∈ u_email <$> users db.



(** * Sample values *)

(** A session without a call, a successful answer, and an answer granting
    access. *)
Definition no_call : State :=
  mkState None false (JBool false) (JBool false) false JUndefined.
Definition accepted : Response := mkResponse 200 None.
Definition granted : Response :=
  mkResponse 200 (Some (JObj [("hasAccess", JBool true)])).

(** A browser whose storage works, and one that refuses every write. *)
Definition open_browser : Browser := mkBrowser true true (fun _ _ => true) ∅.
Definition private_browser : Browser :=
  mkBrowser true true (fun _ _ => false) ∅.
Definition fresh_form : Waitlist := mkWaitlist true false None true false.

(** A database with two users, two teams and a membership whose user is
    gone; and requests of user "u1". *)
Definition sample_lib : Lib :=
  mkLib (fun s => match String.index 0 "@" s with
                  | Some _ => true
                  | None => false
                  end)
        (fun expected _ => "Expected " +:+ expected).
Definition ann : UserRow := mkUserRow "u1" "ann@call.dev" "Ann" None.
Definition bob : UserRow := mkUserRow "u2" "bob@call.dev" "Bob" None.
Definition sample_db : DB :=
  mkDB [ann; bob]
       [mkTeamRow "t0" "Old" "u2" 50; mkTeamRow "t1" "Core" "u1" 100]
       [mkMemberRow "t0" "u2" 50; mkMemberRow "t0" "u1" 60;
        mkMemberRow "t1" "u1" 100; mkMemberRow "t1" "u7" 150].
Definition sample_dates (k : nat) : Z := 200 + Z.of_nat k.
Definition design_body : JsVal :=
  JObj [("name", JStr "Design"); ("members", JArr [JStr "bob@call.dev"])].
Definition stranger_body : JsVal :=
  JObj [("name", JStr "Design"); ("members", JArr [JStr "eve@call.dev"])].
Definition bob_body : JsVal := JObj [("emails", JArr [JStr "bob@call.dev"])].
Definition bob_twice_body : JsVal :=
  JObj [("emails", JArr [JStr "bob@call.dev"; JStr "bob@call.dev"])].
Definition create_request : Ctx :=
  mkCtx (Some "u1") (Some design_body) "" "t2" sample_dates.
Definition stranger_request : Ctx :=
  mkCtx (Some "u1") (Some stranger_body) "t1" "t2" sample_dates.
Definition add_request : Ctx :=
  mkCtx (Some "u1") (Some bob_body) "t1" "t2" sample_dates.
Definition add_twice_request : Ctx :=
  mkCtx (Some "u1") (Some bob_twice_body) "t1" "t2" sample_dates.
Definition leave_request : Ctx :=
  mkCtx (Some "u1") None "t1" "t2" sample_dates.

(** * Proofs *)

(** ** Basic facts *)

Lemma requests_observe_cmd c w :
  requests (observe (Performed c) w) = requests w.
Proof.
  unfold requests, observe; simpl.
  rewrite omap_app; simpl. apply app_nil_r.
Qed.

Lemma same_env_refl w : same_env w w.
Proof. unfold same_env; tauto. Qed.

Lemma same_env_trans w1 w2 w3 :
  same_env w1 w2 -> same_env w2 w3 -> same_env w1 w3.
Proof. unfold same_env; intuition congruence. Qed.

Lemma same_env_do_cmd c w : same_env w (do_cmd c w).
Proof.
  unfold same_env, do_cmd.
  destruct c as [[]| | | |]; simpl;
    rewrite ?requests_observe_cmd; repeat split; try reflexivity;
    unfold requests; simpl; rewrite omap_app; simpl; apply app_nil_r.
Qed.

Lemma exec_straight p : forall w, straight p -> exec p w = do_cmds (effects p) w.
Proof.
  induction p as [a|e|c k IH|req k IH]; simpl; intros w Hs;
    try contradiction; [reflexivity|].
  apply IH, Hs.
Qed.

Lemma same_env_do_cmds cs : forall w, same_env w (do_cmds cs w).
Proof.
  induction cs as [|c cs IH]; intros w; simpl; [apply same_env_refl|].
  eapply same_env_trans; [apply same_env_do_cmd|apply IH].
Qed.

Lemma session_do_cmd c w :
  session (do_cmd c w) =
  match c with Dispatch a => reducer (session w) a | _ => session w end.
Proof. destruct c; reflexivity. Qed.

Lemma session_do_cmds cs : forall w,
  session (do_cmds cs w) = fold_left reducer (actions cs) (session w).
Proof.
  induction cs as [|c cs IH]; intros w; simpl; [reflexivity|].
  rewrite IH, session_do_cmd. destruct c; reflexivity.
Qed.

Lemma log_do_cmds cs : forall w,
  log (do_cmds cs w) = log w ++ map (fun c => (now w, Performed c)) cs.
Proof.
  induction cs as [|c cs IH]; intros w; simpl; [symmetry; apply app_nil_r|].
  rewrite IH.
  destruct (same_env_do_cmd c w) as (_ & -> & _).
  replace (log (do_cmd c w)) with (log w ++ [(now w, Performed c)])
    by (destruct c; reflexivity).
  rewrite <- app_assoc. reflexivity.
Qed.

Lemma performed_do_cmds cs w : performed (do_cmds cs w) = performed w ++ cs.
Proof.
  unfold performed. rewrite log_do_cmds, omap_app. f_equal.
  induction cs as [|c cs IH]; simpl; [reflexivity|]. f_equal. exact IH.
Qed.

(** A resumed function never suspends again and never rejects. *)
Lemma issued_straight req k r : issued req k -> straight (k r).
Proof.
  intros [st c Hc|c|st u c Hc Hg].
  - unfold fetchCreatorInfo. rewrite Hc.
    destruct r as [reason|[s [[]|]]]; cbn -[Z.leb Z.eqb];
      repeat (match goal with |- context [if ?b then _ else _] => destruct b end;
              cbn -[Z.leb Z.eqb]); exact I.
  - destruct r as [reason|[s [[]|]]]; cbn -[Z.leb Z.eqb];
      repeat (match goal with |- context [if ?b then _ else _] => destruct b end;
              cbn -[Z.leb Z.eqb]); exact I.
  - unfold handleRequestAccess. rewrite Hc, Hg.
    destruct r as [reason|[s [[]|]]]; cbn -[Z.leb Z.eqb];
      repeat (match goal with |- context [if ?b then _ else _] => destruct b end;
              cbn -[Z.leb Z.eqb]); exact I.
Qed.

Ltac branches :=
  cbn -[Z.leb Z.eqb];
  repeat (first
            [ progress unfold json
            | match goal with
              | |- context [if ?b then _ else _] => destruct b eqn:?
              | |- context [match body ?r with _ => _ end] =>
                  destruct (body r) as [[]|] eqn:?
              end ];
          cbn -[Z.leb Z.eqb]).

Ltac resumed H :=
  rewrite (exec_straight _ _ (issued_straight _ _ _ H));
  rewrite ?session_do_cmds, ?performed_do_cmds.

(** ** The one-shot creator fetch *)

Lemma creatorEffect_issue (w : World) c :
  call_of (session w) = Some c ->
  creatorEffect w =
  set_inflight
    (inflight w ++ [(mkRequest GET c Creator false,
                     after_fetch (fetchCreatorInfo (session w)))])
    (observe (Requested (mkRequest GET c Creator false)) w).
Proof.
  intros Hc. unfold creatorEffect, fetchCreatorInfo. rewrite Hc. reflexivity.
Qed.

Lemma creatorEffect_idle (w : World) :
  call_of (session w) = None -> creatorEffect w = w.
Proof.
  intros Hc. unfold creatorEffect, fetchCreatorInfo. rewrite Hc. reflexivity.
Qed.

Lemma fetchCreatorInfo_same_env st c r w :
  call_of st = Some c ->
  same_env w (exec (after_fetch (fetchCreatorInfo st) r) w).
Proof.
  intros Hc. pose proof (issued_creator st c Hc) as Hi.
  rewrite (exec_straight _ _ (issued_straight _ _ r Hi)).
  apply same_env_do_cmds.
Qed.

Lemma checkAccess_same_env c r w :
  same_env w (exec (after_fetch (checkAccess c) r) w).
Proof.
  rewrite (exec_straight _ _ (issued_straight _ _ r (issued_check c))).
  apply same_env_do_cmds.
Qed.

(** C5, as the code has it.  Once the creator fetch settles: a 2xx answer
    (200 included) whose body is a JSON object stores [body.creator] in
    [creatorInfo]; a 404 stores [creatorInfo = null], [hasAccess = true],
    [isCreator = false]; a network rejection, or a 2xx body that cannot be
    read, is logged with [console.error] and leaves the session state as it
    was; any other answer (not 2xx, not 404) changes nothing at all and is not
    logged.  In every case nothing is fetched again and no timer is set (no
    retry). *)
Theorem fetchCreatorInfo_outcome st c r w :
  call_of st = Some c ->
  let w' := exec (after_fetch (fetchCreatorInfo st) r) w in
  same_env w w' /\
  match r with
  | Rejected reason =>
      session w' = session w /\
      performed w' = performed w ++
        [ConsoleError "Error fetching creator info:" (FetchRejected reason)]
  | Responded resp =>
      if ok resp then
        match body resp with
        | Some (JObj fs) =>
            session w' =
            reducer (session w) (SET_CREATOR_INFO (field "creator" fs)) /\
            creatorInfo (session w') = field "creator" fs
        | Some JNull | Some JUndefined =>
            session w' = session w /\
            performed w' = performed w ++
              [ConsoleError "Error fetching creator info:" TypeError]
        | Some _ =>
            session w' = reducer (session w) (SET_CREATOR_INFO JUndefined)
        | None =>
            session w' = session w /\
            performed w' = performed w ++
              [ConsoleError "Error fetching creator info:" JsonSyntaxError]
        end
      else if status resp =? 404 then
        session w' =
        mkState (callId (session w)) (joined (session w)) (JBool true)
                (JBool false) (isRequestingAccess (session w)) JNull
      else w' = w
  end.
Proof.
  intros Hc w'. split; [apply fetchCreatorInfo_same_env with c, Hc|].
  subst w'. pose proof (issued_creator st c Hc) as Hi.
  destruct r as [reason|resp]; resumed Hi;
    unfold fetchCreatorInfo; rewrite Hc; branches; auto.
Qed.

(** ** One tick of the access poll *)

(** C6, as the code has it.  Once a check-access fetch settles: a 2xx answer
    (200 included) whose body is a JSON object stores [body.hasAccess] and
    [body.isCreator]; a 404 stores [hasAccess = true], [isCreator = false];
    a network rejection, or a 2xx body that cannot be read, is logged with
    [console.error] and the previous state is kept; any other answer (not
    2xx, not 404) changes nothing at all and is not logged.  In every case
    the timers are left as they are, so the next tick polls again. *)
Theorem checkAccess_outcome c r w :
  let w' := exec (after_fetch (checkAccess c) r) w in
  same_env w w' /\
  match r with
  | Rejected reason =>
      session w' = session w /\
      performed w' = performed w ++
        [ConsoleError "Error checking call access:" (FetchRejected reason)]
  | Responded resp =>
      if ok resp then
        match body resp with
        | Some (JObj fs) =>
            session w' =
            reducer (reducer (session w) (SET_HAS_ACCESS (field "hasAccess" fs)))
                    (SET_CREATOR (field "isCreator" fs)) /\
            hasAccess (session w') = field "hasAccess" fs /\
            isCreator (session w') = field "isCreator" fs
        | Some JNull | Some JUndefined =>
            session w' = session w /\
            performed w' = performed w ++
              [ConsoleError "Error checking call access:" TypeError]
        | Some _ =>
            session w' =
            reducer (reducer (session w) (SET_HAS_ACCESS JUndefined))
                    (SET_CREATOR JUndefined)
        | None =>
            session w' = session w /\
            performed w' = performed w ++
              [ConsoleError "Error checking call access:" JsonSyntaxError]
        end
      else if status resp =? 404 then
        session w' =
        mkState (callId (session w)) (joined (session w)) (JBool true)
                (JBool false) (isRequestingAccess (session w))
                (creatorInfo (session w))
      else w' = w
  end.
Proof.
  intros w'. split; [apply checkAccess_same_env|].
  subst w'. pose proof (issued_check c) as Hi.
  destruct r as [reason|resp]; resumed Hi; branches; auto.
Qed.

(** C9.  Whatever the answer to a check-access fetch (200, 404 or anything
    else), the resumed poll dispatches only [SET_HAS_ACCESS] and
    [SET_CREATOR]; [creatorInfo] and [isRequestingAccess] keep their values
    (and so do [callId] and [joined]). *)
Theorem checkAccess_frame c r w :
  let w' := exec (after_fetch (checkAccess c) r) w in
  Forall poll_action (actions (effects (after_fetch (checkAccess c) r))) /\
  creatorInfo (session w') = creatorInfo (session w) /\
  isRequestingAccess (session w') = isRequestingAccess (session w) /\
  callId (session w') = callId (session w) /\
  joined (session w') = joined (session w).
Proof.
  intros w'. subst w'. pose proof (issued_check c) as Hi.
  destruct r as [reason|resp]; resumed Hi; branches;
    repeat split; repeat constructor.
Qed.

(** ** Requesting access *)

Lemma handleRequestAccess_issue st u c :
  call_of st = Some c -> isGuest u = false ->
  handleRequestAccess st u =
  Do (Dispatch (SET_REQUESTING_ACCESS true))
     (Await (mkRequest POST c RequestJoin true)
            (after_fetch (handleRequestAccess st u))).
Proof.
  intros Hc Hg. unfold handleRequestAccess. rewrite Hc, Hg. reflexivity.
Qed.

(** C3.  Called by an identified user on a call, [handleRequestAccess] first
    sets [isRequestingAccess] to true and then sends the request-join POST;
    however that fetch settles (2xx, any other status, or a rejection), the
    resumed function ends by dispatching [SET_REQUESTING_ACCESS false], and
    [isRequestingAccess] is false afterwards. *)
Theorem handleRequestAccess_resets (w : World) c :
  call_of (session w) = Some c -> isGuest (user w) = false ->
  let post := mkRequest POST c RequestJoin true in
  let k := after_fetch (handleRequestAccess (session w) (user w)) in
  let w1 := step w EvRequestAccess in
  log w1 = log w ++ [(now w, Performed (Dispatch (SET_REQUESTING_ACCESS true)));
                     (now w, Requested post)] /\
  isRequestingAccess (session w1) = true /\
  inflight w1 = inflight w ++ [(post, k)] /\
  forall r w2,
    let w3 := exec (k r) w2 in
    isRequestingAccess (session w3) = false /\
    exists before,
      performed w3 =
      performed w2 ++ before ++ [Dispatch (SET_REQUESTING_ACCESS false)].
Proof.
  intros Hc Hg post k w1. subst w1; simpl.
  rewrite (handleRequestAccess_issue _ _ c Hc Hg); simpl.
  split; [rewrite <- app_assoc; reflexivity|].
  split; [reflexivity|]. split; [reflexivity|].
  intros r w2. cbv zeta. subst k.
  pose proof (issued_join _ _ c Hc Hg) as Hi. resumed Hi.
  unfold handleRequestAccess; rewrite Hc, Hg.
  destruct r as [reason|resp]; branches;
    (split; [reflexivity|]);
    match goal with
    | |- exists b, _ ++ ?l = _ =>
        exists (removelast l); reflexivity
    end.
Qed.

(** C7.  When the request-join POST is answered with a non-2xx status, one
    notification is shown and it is an error notification; its text is the
    [error] of the response body when the body has a non-empty one, and
    "Failed to send request" otherwise; [isRequestingAccess] is false
    afterwards. *)
Theorem handleRequestAccess_error_text st u c resp w :
  call_of st = Some c -> isGuest u = false -> ok resp = false ->
  let w' := exec (after_fetch (handleRequestAccess st u) (Responded resp)) w in
  toasts (performed w') =
    toasts (performed w) ++ [ToastError (notification_text resp)] /\
  isRequestingAccess (session w') = false.
Proof.
  intros Hc Hg Hok w'. subst w'.
  pose proof (issued_join _ _ c Hc Hg) as Hi. resumed Hi.
  unfold toasts. rewrite List.filter_app.
  unfold handleRequestAccess, notification_text, server_message, js_or.
  rewrite Hc, Hg. cbn -[Z.leb Z.eqb]. rewrite Hok.
  unfold json. destruct (body resp) as [[]|]; cbn -[Z.leb Z.eqb]; auto.
  destruct (truthy (field "error" fields)); auto.
Qed.

(** C8.  Called by a guest on a call, [handleRequestAccess] only shows the
    informational notification: the world is the one before with that
    notification added to the log, so no request leaves, nothing is in
    flight that was not, and no field of the session state changes. *)
Theorem handleRequestAccess_guest (w : World) c :
  call_of (session w) = Some c -> isGuest (user w) = true ->
  let w' := step w EvRequestAccess in
  w' = observe (Performed (ToastInfo "Joining as guest. No approval required.")) w /\
  session w' = session w /\
  requests w' = requests w /\
  inflight w' = inflight w /\
  timers w' = timers w.
Proof.
  intros Hc Hg w'. subst w'. simpl.
  unfold handleRequestAccess. rewrite Hc, Hg. simpl.
  repeat split. apply requests_observe_cmd.
Qed.

(** ** The invariant is kept by every step *)

Lemma isGuest_user_id u u' : user_id u = user_id u' -> isGuest u = isGuest u'.
Proof.
  destruct u as [[[s|]]|], u' as [[[s'|]]|]; simpl; intros H;
    try discriminate; try reflexivity.
  now injection H as ->.
Qed.

Lemma timer_inv_ext w w' :
  cleanup w' = cleanup w -> timers w' = timers w ->
  callId (session w') = callId (session w) ->
  joined (session w') = joined (session w) ->
  isGuest (user w') = isGuest (user w) -> now w' = now w ->
  timer_inv w -> timer_inv w'.
Proof.
  unfold timer_inv, call_of. intros -> -> -> -> -> ->. tauto.
Qed.

Lemma timer_inv_same_env w w' : same_env w w' -> timer_inv w -> timer_inv w'.
Proof.
  intros (Hu & Hn & Ht & _ & Hc & _ & _ & Hid & Hj).
  apply timer_inv_ext; congruence.
Qed.

Lemma timer_inv_shape w : timer_inv w -> timer_shape w.
Proof.
  unfold timer_inv, timer_shape. destruct (cleanup w); [|auto].
  intros (c & d & H & _). eauto.
Qed.

Lemma run_cleanup_eq w :
  timer_shape w -> run_cleanup w = set_cleanup None (set_timers ∅ w).
Proof.
  unfold timer_shape, run_cleanup, clearInterval.
  destruct w as [st u t ts nx [i|] fl lg]; simpl.
  - intros (tm & ->). unfold set_cleanup, set_timers; simpl.
    now rewrite delete_singleton_eq.
  - now intros ->.
Qed.

Lemma accessEffect_cases (w : World) :
  (joined (session w) = true \/ call_of (session w) = None) /\
    accessEffect w = set_cleanup None w
  \/ (exists c, joined (session w) = false /\ call_of (session w) = Some c /\
        isGuest (user w) = true /\
        accessEffect w =
        set_cleanup None
          (do_cmds [Dispatch (SET_HAS_ACCESS (JBool true));
                    Dispatch (SET_CREATOR (JBool false))] w))
  \/ (exists c, joined (session w) = false /\ call_of (session w) = Some c /\
        isGuest (user w) = false /\
        let poll := mkRequest GET c CheckAccess false in
        accessEffect w =
        mkWorld (session w) (user w) (now w)
          (<[next_timer w := mkTimer 3000 (now w + 3000) (checkAccess c)]>
             (timers w))
          (S (next_timer w)) (Some (next_timer w))
          (inflight w ++ [(poll, after_fetch (checkAccess c))])
          (log w ++ [(now w, Requested poll)])).
Proof.
  unfold accessEffect.
  destruct (joined (session w)) eqn:Hj; [left; auto|].
  destruct (call_of (session w)) as [c|] eqn:Hc; [|left; auto].
  destruct (isGuest (user w)) eqn:Hg; right; [left|right]; exists c;
    repeat split; reflexivity.
Qed.

Lemma exec_checkAccess c w :
  exec (checkAccess c) w =
  set_inflight
    (inflight w ++ [(mkRequest GET c CheckAccess false,
                     after_fetch (checkAccess c))])
    (observe (Requested (mkRequest GET c CheckAccess false)) w).
Proof. reflexivity. Qed.

Lemma issued_same_env req k r w : issued req k -> same_env w (exec (k r) w).
Proof.
  intros Hi. rewrite (exec_straight _ _ (issued_straight _ _ r Hi)).
  apply same_env_do_cmds.
Qed.

Lemma issued_all_creatorEffect w : issued_all w -> issued_all (creatorEffect w).
Proof.
  intros H. destruct (call_of (session w)) as [c|] eqn:Hc.
  - rewrite (creatorEffect_issue _ _ Hc). unfold issued_all; simpl.
    apply Forall_app; split; [exact H|].
    apply Forall_singleton; simpl. now apply issued_creator.
  - now rewrite (creatorEffect_idle _ Hc).
Qed.

Lemma idle_creatorEffect w : idle w -> idle (creatorEffect w).
Proof.
  intros H. destruct (call_of (session w)) as [c|] eqn:Hc.
  - rewrite (creatorEffect_issue _ _ Hc). exact H.
  - now rewrite (creatorEffect_idle _ Hc).
Qed.

Lemma accessEffect_Inv w : issued_all w -> idle w -> Inv (accessEffect w).
Proof.
  intros Hi [Hcl Ht].
  destruct (accessEffect_cases w)
    as [[_ ->]|[(c & Hj & Hc & Hg & ->)|(c & Hj & Hc & Hg & ->)]].
  - split; [exact Hi|exact Ht].
  - split.
    + unfold issued_all; simpl. exact Hi.
    + unfold timer_inv; simpl. exact Ht.
  - split.
    + unfold issued_all; simpl. apply Forall_app; split; [exact Hi|].
      apply Forall_singleton; simpl. apply issued_check.
    + unfold timer_inv; simpl. exists c, (now w + 3000).
      rewrite Ht, insert_empty. repeat split; auto; lia.
Qed.

Lemma rerun_access_Inv w w0 :
  Inv w -> timers w0 = timers w -> cleanup w0 = cleanup w ->
  inflight w0 = inflight w ->
  Inv (accessEffect (run_cleanup w0)).
Proof.
  intros [Hi Ht] Hts Hcl Hfl.
  rewrite run_cleanup_eq.
  - apply accessEffect_Inv; [|split; reflexivity].
    unfold issued_all; simpl. now rewrite Hfl.
  - apply timer_inv_shape in Ht. unfold timer_shape in *. now rewrite Hcl, Hts.
Qed.

Lemma step_Inv w e : Inv w -> Inv (step w e).
Proof.
  intros HI. pose proof HI as [Hi Ht].
  destruct e as [c|b|u|d|i|n r|]; simpl.
  - case_bool_decide; [exact HI|].
    set (w0 := set_session _ w).
    rewrite (run_cleanup_eq w0)
      by (apply timer_inv_shape in Ht; exact Ht).
    apply accessEffect_Inv.
    + apply issued_all_creatorEffect. exact Hi.
    + apply idle_creatorEffect. split; reflexivity.
  - case_bool_decide; [exact HI|].
    now apply rerun_access_Inv with w.
  - case_bool_decide as Hu.
    + split; [exact Hi|].
      revert Ht. apply timer_inv_ext; simpl; auto.
      now apply isGuest_user_id.
    + now apply rerun_access_Inv with w.
  - destruct (may_wait d w) eqn:Hw; [|exact HI].
    split; [exact Hi|].
    unfold timer_inv in *; simpl. destruct (cleanup w) as [i|]; [|exact Ht].
    destruct Ht as (c & d0 & Hts & Hc & Hj & Hg & Hd).
    unfold may_wait in Hw. apply andb_true_iff in Hw as [Hd0 Hw].
    apply Z.leb_le in Hd0. apply bool_decide_eq_true in Hw.
    rewrite Hts in Hw.
    pose proof (Hw i (mkTimer 3000 d0 (checkAccess c))
                  (lookup_singleton_eq _ _)) as Hdue; simpl in Hdue.
    exists c, d0. repeat split; auto; lia.
  - destruct (timers w !! i) as [t|] eqn:Hl; [|exact HI].
    unfold timer_inv in Ht. destruct (cleanup w) as [i0|] eqn:Hcl;
      [|rewrite Ht, lookup_empty in Hl; discriminate].
    destruct Ht as (c & d0 & Hts & Hc & Hj & Hg & Hd).
    rewrite Hts in Hl. apply lookup_singleton_Some in Hl as [-> <-].
    cbn [callback period]. rewrite exec_checkAccess. split.
    + unfold issued_all; simpl. apply Forall_app; split; [exact Hi|].
      apply Forall_singleton; simpl. apply issued_check.
    + unfold timer_inv; simpl. rewrite Hcl.
      exists c, (Z.max (now w) d0 + 3000).
      rewrite Hts, insert_singleton_eq. repeat split; auto; lia.
  - destruct (inflight w !! n) as [[req k]|] eqn:Hl; [|exact HI].
    assert (Hk : issued req k)
      by (apply (proj1 (Forall_lookup _ _) Hi n (req, k) Hl)).
    pose proof (issued_same_env req k r
                  (set_inflight (delete n (inflight w)) w) Hk) as Hse.
    split.
    + unfold issued_all. destruct Hse as (_ & _ & _ & _ & _ & -> & _); simpl.
      apply Forall_delete, Hi.
    + apply (timer_inv_same_env _ _ Hse). exact Ht.
  - unfold handleRequestAccess.
    destruct (call_of (session w)) as [c|] eqn:Hc; [|exact HI].
    destruct (isGuest (user w)) eqn:Hg; simpl.
    + split; [exact Hi|exact Ht].
    + split.
      * unfold issued_all; simpl. apply Forall_app; split; [exact Hi|].
        apply Forall_singleton; simpl.
        pose proof (issued_join _ _ c Hc Hg) as Hj.
        unfold handleRequestAccess in Hj. rewrite Hc, Hg in Hj. exact Hj.
      * exact Ht.
Qed.

Lemma mount_Inv st u t0 : Inv (mount st u t0).
Proof.
  unfold mount. apply accessEffect_Inv.
  - apply issued_all_creatorEffect. constructor.
  - apply idle_creatorEffect. split; reflexivity.
Qed.

Lemma run_Inv evs : forall w, Inv w -> Inv (run w evs).
Proof.
  induction evs as [|e evs IH]; intros w HI; [exact HI|].
  apply IH, step_Inv, HI.
Qed.

(** ** Where check-access requests come from *)

Lemma polls_observe_req r w :
  polls (observe (Requested r) w) =
  polls w ++ (if bool_decide (req_endpoint r = CheckAccess)
              then [(now w, r)] else []).
Proof.
  unfold polls, requests; simpl. rewrite omap_app, filter_app; simpl.
  f_equal. rewrite filter_cons; simpl.
  case_bool_decide; case_decide; try contradiction; reflexivity.
Qed.

Lemma polls_same_env w w' : same_env w w' -> polls w' = polls w.
Proof. intros (_ & _ & _ & _ & _ & _ & H & _). unfold polls. now rewrite H. Qed.

Lemma polls_creatorEffect w : polls (creatorEffect w) = polls w.
Proof.
  destruct (call_of (session w)) as [c|] eqn:Hc.
  - rewrite (creatorEffect_issue _ _ Hc).
    rewrite <- (app_nil_r (polls w)).
    exact (polls_observe_req (mkRequest GET c Creator false) w).
  - now rewrite (creatorEffect_idle _ Hc).
Qed.

Lemma polls_run_cleanup w : polls (run_cleanup w) = polls w.
Proof. unfold run_cleanup. destruct (cleanup w); reflexivity. Qed.

Lemma accessEffect_polls w :
  exists new, polls (accessEffect w) = polls w ++ new /\
              poll_allowed (accessEffect w) new.
Proof.
  destruct (accessEffect_cases w)
    as [[_ ->]|[(c & Hj & Hc & Hg & ->)|(c & Hj & Hc & Hg & ->)]].
  - exists []. split; [now rewrite app_nil_r|now left].
  - exists []. split; [|now left]. rewrite app_nil_r.
    apply (polls_same_env w (do_cmds _ w)), same_env_do_cmds.
  - exists [(now w, poll c)]. split.
    + exact (polls_observe_req (poll c) w).
    + right. exists c. auto.
Qed.

Lemma rerun_access_polls w0 :
  exists new, polls (accessEffect (run_cleanup w0)) = polls w0 ++ new /\
              poll_allowed (accessEffect (run_cleanup w0)) new.
Proof.
  destruct (accessEffect_polls (run_cleanup w0)) as (new & Hp & Ha).
  exists new. now rewrite Hp, polls_run_cleanup.
Qed.

Lemma step_polls w e :
  Inv w ->
  exists new, polls (step w e) = polls w ++ new /\ poll_allowed (step w e) new.
Proof.
  intros [Hi Ht].
  assert (Hnil : forall w', polls w' = polls w ->
            exists new, polls w' = polls w ++ new /\ poll_allowed w' new)
    by (intros w' ->; exists []; split; [now rewrite app_nil_r|now left]).
  destruct e as [c|b|u|d|i|n r|]; simpl.
  - case_bool_decide; [now apply Hnil|].
    set (w0 := set_session _ w).
    destruct (accessEffect_polls (creatorEffect (run_cleanup w0)))
      as (new & Hp & Ha).
    exists new. split; [|exact Ha].
    now rewrite Hp, polls_creatorEffect, polls_run_cleanup.
  - case_bool_decide; [now apply Hnil|]. apply (rerun_access_polls (set_session _ w)).
  - case_bool_decide; [now apply Hnil|]. apply (rerun_access_polls (set_user u w)).
  - destruct (may_wait d w); now apply Hnil.
  - destruct (timers w !! i) as [t|] eqn:Hl; [|now apply Hnil].
    unfold timer_inv in Ht. destruct (cleanup w) as [i0|] eqn:Hcl;
      [|rewrite Ht, lookup_empty in Hl; discriminate].
    destruct Ht as (c & d0 & Hts & Hc & Hj & Hg & Hd).
    rewrite Hts in Hl. apply lookup_singleton_Some in Hl as [-> <-].
    cbn [callback period]. rewrite exec_checkAccess.
    exists [(Z.max (now w) d0, poll c)]. split.
    + exact (polls_observe_req (poll c) (set_timers _ (set_now _ w))).
    + right. exists c. auto.
  - destruct (inflight w !! n) as [[req k]|] eqn:Hl; [|now apply Hnil].
    assert (Hk : issued req k)
      by (apply (proj1 (Forall_lookup _ _) Hi n (req, k) Hl)).
    apply Hnil.
    apply (polls_same_env (set_inflight (delete n (inflight w)) w)).
    now apply issued_same_env with req.
  - unfold handleRequestAccess.
    destruct (call_of (session w)) as [c|] eqn:Hc; [|now apply Hnil].
    destruct (isGuest (user w)) eqn:Hg; simpl; apply Hnil.
    + exact (polls_same_env w _
               (same_env_do_cmd
                  (ToastInfo "Joining as guest. No approval required.") w)).
    + set (w1 := do_cmd (Dispatch (SET_REQUESTING_ACCESS true)) w).
      transitivity (polls w1);
        [|exact (polls_same_env w w1 (same_env_do_cmd _ w))].
      rewrite <- (app_nil_r (polls w1)).
      exact (polls_observe_req (mkRequest POST c RequestJoin true) w1).
Qed.

Lemma same_env_inputs w w' : same_env w w' -> same_inputs w w'.
Proof. unfold same_env, same_inputs. tauto. Qed.

Lemma same_inputs_trans w1 w2 w3 :
  same_inputs w1 w2 -> same_inputs w2 w3 -> same_inputs w1 w3.
Proof. unfold same_inputs. intuition congruence. Qed.

Lemma accessEffect_inputs w : same_inputs w (accessEffect w).
Proof.
  destruct (accessEffect_cases w)
    as [[_ ->]|[(c & Hj & Hc & Hg & ->)|(c & Hj & Hc & Hg & ->)]];
    repeat split; reflexivity.
Qed.

Lemma creatorEffect_inputs w : same_inputs w (creatorEffect w).
Proof.
  destruct (call_of (session w)) as [c|] eqn:Hc.
  - rewrite (creatorEffect_issue _ _ Hc). repeat split.
  - rewrite (creatorEffect_idle _ Hc). repeat split.
Qed.

Lemma run_cleanup_inputs w : same_inputs w (run_cleanup w).
Proof. unfold run_cleanup. destruct (cleanup w); repeat split. Qed.

Lemma step_inputs w e :
  Inv w ->
  user (step w e) = match e with EvSetUser u => u | _ => user w end /\
  callId (session (step w e)) =
    match e with EvSetCallId c => c | _ => callId (session w) end /\
  joined (session (step w e)) =
    match e with EvSetJoined b => b | _ => joined (session w) end.
Proof.
  intros [Hi Ht].
  destruct e as [c|b|u|d|i|n r|]; simpl.
  - case_bool_decide; [subst; auto|].
    set (w0 := set_session _ w).
    apply (same_inputs_trans w0 (creatorEffect (run_cleanup w0)));
      [|apply accessEffect_inputs].
    apply (same_inputs_trans w0 (run_cleanup w0));
      [apply run_cleanup_inputs|apply creatorEffect_inputs].
  - case_bool_decide; [subst; auto|].
    set (w0 := set_session _ w).
    apply (same_inputs_trans w0 (run_cleanup w0));
      [apply run_cleanup_inputs|apply accessEffect_inputs].
  - case_bool_decide; [repeat split|].
    set (w0 := set_user u w).
    apply (same_inputs_trans w0 (run_cleanup w0));
      [apply run_cleanup_inputs|apply accessEffect_inputs].
  - destruct (may_wait d w); repeat split.
  - destruct (timers w !! i) as [t|] eqn:Hl; [|repeat split].
    unfold timer_inv in Ht. destruct (cleanup w) as [i0|] eqn:Hcl;
      [|rewrite Ht, lookup_empty in Hl; discriminate].
    destruct Ht as (c & d0 & Hts & _).
    rewrite Hts in Hl. apply lookup_singleton_Some in Hl as [-> <-].
    cbn [callback period]. rewrite exec_checkAccess. repeat split.
  - destruct (inflight w !! n) as [[req k]|] eqn:Hl; [|repeat split].
    assert (Hk : issued req k)
      by (apply (proj1 (Forall_lookup _ _) Hi n (req, k) Hl)).
    apply (same_env_inputs (set_inflight (delete n (inflight w)) w)).
    now apply issued_same_env with req.
  - unfold handleRequestAccess.
    destruct (call_of (session w)) as [c|] eqn:Hc; [|repeat split].
    destruct (isGuest (user w)) eqn:Hg; simpl; repeat split.
Qed.

(** A timer in the table is the poll of the current call. *)
Lemma timers_active w i t :
  Inv w -> timers w !! i = Some t ->
  exists c,
    timers w = {[ i := mkTimer 3000 (due t) (checkAccess c) ]} /\
    t = mkTimer 3000 (due t) (checkAccess c) /\
    call_of (session w) = Some c /\ joined (session w) = false /\
    isGuest (user w) = false /\ now w <= due t <= now w + 3000.
Proof.
  intros [_ Ht] Hl. unfold timer_inv in Ht.
  destruct (cleanup w) as [i0|];
    [|rewrite Ht, lookup_empty in Hl; discriminate].
  destruct Ht as (c & d0 & Hts & Hc & Hj & Hg & Hd).
  rewrite Hts in Hl. apply lookup_singleton_Some in Hl as [-> <-]; simpl.
  exists c. repeat split; auto; lia.
Qed.

Lemma no_timers w :
  Inv w ->
  joined (session w) = true \/ call_of (session w) = None \/
    isGuest (user w) = true ->
  timers w = ∅.
Proof.
  intros [_ Ht] H. unfold timer_inv in Ht.
  destruct (cleanup w); [|exact Ht].
  destruct Ht as (c & d & _ & Hc & Hj & Hg & _).
  destruct H as [H|[H|H]]; congruence.
Qed.

Lemma tick_fires w i t c :
  timers w = {[ i := t ]} -> t = mkTimer 3000 (due t) (checkAccess c) ->
  now w <= due t ->
  let w' := step w (EvTick i) in
  polls w' = polls w ++ [(due t, poll c)] /\
  now w' = due t /\
  timers w' = {[ i := mkTimer 3000 (due t + 3000) (checkAccess c) ]}.
Proof.
  intros Hts Ht Hd; simpl. rewrite Hts, lookup_singleton_eq.
  rewrite Ht; cbn [callback period due]. rewrite exec_checkAccess; simpl.
  rewrite Z.max_r by lia. repeat split.
  - exact (polls_observe_req (poll c) (set_timers _ (set_now _ w))).
  - apply insert_singleton_eq.
Qed.

Lemma ticks_schedule n : forall w i c d,
  timers w = {[ i := mkTimer 3000 d (checkAccess c) ]} -> now w <= d ->
  let w' := run w (replicate n (EvTick i)) in
  polls w' =
    polls w ++ map (fun k => (d + 3000 * Z.of_nat k, poll c)) (seq 0 n) /\
  timers w' = {[ i := mkTimer 3000 (d + 3000 * Z.of_nat n) (checkAccess c) ]}.
Proof.
  induction n as [|n IH]; intros w i c d Hts Hd; cbv zeta.
  - simpl. rewrite app_nil_r, Hts. split; [reflexivity|].
    do 2 f_equal. lia.
  - change (run w (replicate (S n) (EvTick i)))
      with (run (step w (EvTick i)) (replicate n (EvTick i))).
    destruct (tick_fires w i _ c Hts eq_refl Hd) as (Hp & Hn & Ht').
    cbn [due] in Hp, Hn, Ht'.
    destruct (IH (step w (EvTick i)) i c (d + 3000) Ht') as [Hp' Ht''];
      [lia|].
    rewrite Hp', Ht'', Hp, <- app_assoc. split.
    + f_equal. cbn [seq map app]. f_equal; [f_equal; lia|].
      rewrite <- seq_shift, map_map. apply map_ext. intros k. f_equal. lia.
    + do 2 f_equal. lia.
Qed.

Lemma mount_identified st u t0 c :
  call_of st = Some c -> joined st = false -> isGuest u = false ->
  polls (mount st u t0) = [(t0, poll c)] /\
  timers (mount st u t0) =
    {[ 1%nat := mkTimer 3000 (t0 + 3000) (checkAccess c) ]} /\
  now (mount st u t0) = t0.
Proof.
  intros Hc Hj Hg. unfold mount.
  set (w0 := mkWorld st u t0 ∅ 1%nat None [] []).
  rewrite (creatorEffect_issue w0 c Hc).
  unfold accessEffect; simpl. rewrite Hj, Hc, Hg; simpl.
  rewrite insert_empty. repeat split.
Qed.

(** ** The polling life cycle *)

Lemma joined_run evs : forall w,
  Inv w -> joined (session w) = true -> stays_joined evs = true ->
  polls (run w evs) = polls w /\ joined (session (run w evs)) = true.
Proof.
  induction evs as [|e evs IH]; intros w HI Hj He; [auto|].
  simpl in He. apply andb_true_iff in He as [He Hes].
  assert (Hj' : joined (session (step w e)) = true).
  { destruct (step_inputs w e HI) as (_ & _ & ->). destruct e; auto. }
  destruct (IH (step w e) (step_Inv w e HI) Hj' Hes) as [Hp Hjr].
  split; [|exact Hjr]. simpl. rewrite Hp.
  destruct (step_polls w e HI) as (new & -> & [->|(c & _ & _ & Hn & _)]).
  - apply app_nil_r.
  - congruence.
Qed.

Lemma no_call_run evs : forall w,
  Inv w -> call_of (session w) = None -> keeps_callId evs = true ->
  polls (run w evs) = polls w.
Proof.
  induction evs as [|e evs IH]; intros w HI Hc He; [auto|].
  simpl in He. apply andb_true_iff in He as [He Hes].
  assert (Hc' : call_of (session (step w e)) = None).
  { unfold call_of in *. destruct (step_inputs w e HI) as (_ & -> & _).
    destruct e; try discriminate; exact Hc. }
  simpl. rewrite (IH (step w e) (step_Inv w e HI) Hc' Hes).
  destruct (step_polls w e HI) as (new & -> & [->|(c & _ & Hn & _)]).
  - apply app_nil_r.
  - congruence.
Qed.

(** C4.  In every world the component can reach:
    - a timer exists only while [joined] is false, [callId] is set and the
      user is identified; it is then the only timer, has period 3000, is
      due within 3000 ms and polls the current call; when [joined] is true
      or [callId] is unset the interval table is empty (the timer has been
      cleared);
    - once [joined] is true no check-access request leaves, for as long as
      [joined] is not set back to false; likewise while [callId] is unset;
    - whatever happens next, a check-access request leaves in that step only
      if afterwards the call is still not joined, and the request is for
      the call identifier current after the step (so none leaves for a call
      identifier that has been replaced);
    - setting [joined] or [callId] does set them;
    - a timer that fires sends one check-access request at its due time and
      is due again 3000 ms later.
    And a component mounted at [t0] by an identified user on a call not yet
    joined sends check-access at [t0], [t0 + 3000], [t0 + 6000], ... as its
    timer fires. *)
Theorem polling_lifecycle st u t0 evs :
  let w := run (mount st u t0) evs in
  (forall i t, timers w !! i = Some t ->
     joined (session w) = false /\ isGuest (user w) = false /\
     exists c, call_of (session w) = Some c /\
               timers w = {[ i := mkTimer 3000 (due t) (checkAccess c) ]} /\
               now w <= due t <= now w + 3000) /\
  (joined (session w) = true \/ call_of (session w) = None -> timers w = ∅) /\
  (forall evs', joined (session w) = true -> stays_joined evs' = true ->
     polls (run w evs') = polls w) /\
  (forall evs', call_of (session w) = None -> keeps_callId evs' = true ->
     polls (run w evs') = polls w) /\
  (forall e, exists new,
     polls (step w e) = polls w ++ new /\ poll_allowed (step w e) new) /\
  (forall b, joined (session (step w (EvSetJoined b))) = b) /\
  (forall c, callId (session (step w (EvSetCallId c))) = c) /\
  (forall i t, timers w !! i = Some t ->
     exists c, call_of (session w) = Some c /\
       polls (step w (EvTick i)) = polls w ++ [(due t, poll c)] /\
       timers (step w (EvTick i)) =
         {[ i := mkTimer 3000 (due t + 3000) (checkAccess c) ]}) /\
  (forall c n,
     call_of st = Some c -> joined st = false -> isGuest u = false ->
     polls (run (mount st u t0) (replicate n (EvTick 1%nat))) =
     map (fun k => (t0 + 3000 * Z.of_nat k, poll c)) (seq 0 (S n))).
Proof.
  intros w.
  assert (HI : Inv w) by apply run_Inv, mount_Inv.
  split; [|split; [|split; [|split; [|split; [|split; [|split; [|split]]]]]]].
  - intros i t Hl.
    destruct (timers_active w i t HI Hl) as (c & Hts & _ & Hc & Hj & Hg & Hd).
    eauto 8.
  - intros H. apply no_timers; [exact HI|tauto].
  - intros evs' Hj He. now apply joined_run.
  - intros evs' Hc He. now apply no_call_run.
  - intros e. apply step_polls, HI.
  - intros b. apply (step_inputs w (EvSetJoined b) HI).
  - intros c. apply (step_inputs w (EvSetCallId c) HI).
  - intros i t Hl.
    destruct (timers_active w i t HI Hl) as (c & Hts & Ht & Hc & Hj & Hg & Hd).
    exists c. split; [exact Hc|].
    assert (Hts' : timers w = {[ i := t ]}) by (rewrite Ht; exact Hts).
    destruct (tick_fires w i t c Hts' Ht (proj1 Hd)) as (Hp & _ & Ht').
    auto.
  - intros c n Hc Hj Hg.
    destruct (mount_identified st u t0 c Hc Hj Hg) as (Hp & Hts & Hn).
    destruct (ticks_schedule n (mount st u t0) 1%nat c (t0 + 3000) Hts)
      as [Hp' _]; [lia|].
    rewrite Hp', Hp. cbn [seq map app]. f_equal; [f_equal; lia|].
    rewrite <- seq_shift, map_map. apply map_ext. intros k. f_equal. lia.
Qed.

(** ** Guests *)

Lemma guest_step w e :
  Inv w -> isGuest (user w) = true -> polls w = [] ->
  match e with EvSetUser u => isGuest u | _ => true end = true ->
  isGuest (user (step w e)) = true /\ polls (step w e) = [].
Proof.
  intros HI Hg Hp He.
  assert (Hg' : isGuest (user (step w e)) = true).
  { destruct (step_inputs w e HI) as (-> & _). destruct e; auto. }
  split; [exact Hg'|].
  destruct (step_polls w e HI) as (new & -> & [->|(c & _ & _ & _ & Hn)]).
  - now rewrite Hp.
  - congruence.
Qed.

Lemma guest_run evs : forall w,
  Inv w -> isGuest (user w) = true -> polls w = [] ->
  guests_only evs = true ->
  isGuest (user (run w evs)) = true /\ polls (run w evs) = [].
Proof.
  induction evs as [|e evs IH]; intros w HI Hg Hp He; [auto|].
  simpl in He. apply andb_true_iff in He as [He Hes].
  destruct (guest_step w e HI Hg Hp He) as [Hg' Hp'].
  apply (IH (step w e)); auto using step_Inv.
Qed.

Lemma requests_observe_req r w :
  requests (observe (Requested r) w) = requests w ++ [(now w, r)].
Proof. unfold requests; simpl. now rewrite omap_app. Qed.

Lemma accessEffect_guest w c :
  isGuest (user w) = true -> call_of (session w) = Some c ->
  joined (session w) = false ->
  accessEffect w =
  set_cleanup None
    (do_cmds [Dispatch (SET_HAS_ACCESS (JBool true));
              Dispatch (SET_CREATOR (JBool false))] w).
Proof.
  intros Hg Hc Hj. unfold accessEffect. now rewrite Hj, Hc, Hg.
Qed.

Lemma accessEffect_guest_requests w :
  isGuest (user w) = true -> requests (accessEffect w) = requests w.
Proof.
  intros Hg.
  destruct (accessEffect_cases w)
    as [[_ ->]|[(c & Hj & Hc & _ & ->)|(c & _ & _ & Hg' & _)]].
  - reflexivity.
  - apply (same_env_do_cmds _ w).
  - congruence.
Qed.

Lemma mount_guest st u t0 :
  isGuest u = true ->
  isGuest (user (mount st u t0)) = true /\ polls (mount st u t0) = [].
Proof.
  intros Hg. unfold mount. set (w0 := mkWorld st u t0 ∅ 1%nat None [] []).
  assert (Hu : user (accessEffect (creatorEffect w0)) = u).
  { destruct (accessEffect_inputs (creatorEffect w0)) as (-> & _).
    now destruct (creatorEffect_inputs w0) as (-> & _). }
  split; [now rewrite Hu|].
  destruct (accessEffect_polls (creatorEffect w0))
    as (new & -> & [->|(c & _ & _ & _ & Hn)]).
  - now rewrite polls_creatorEffect.
  - congruence.
Qed.

(** C2.  For a guest (no user, no id, or the id "guest"; the code also takes
    an empty id for a guest), and as long as the user stays one: no
    check-access request is ever sent and no timer is ever set; and where
    the access effect runs for a guest on a call not yet joined (at mount in
    particular), it dispatches [hasAccess = true] and [isCreator = false] on
    the spot: nothing is put in flight, no request leaves, no time passes. *)
Theorem guest_access_is_local st u t0 evs :
  isGuest u = true -> guests_only evs = true ->
  let w := run (mount st u t0) evs in
  polls w = [] /\ timers w = ∅ /\
  (forall c, call_of (session w) = Some c -> joined (session w) = false ->
     let w' := accessEffect w in
     hasAccess (session w') = JBool true /\
     isCreator (session w') = JBool false /\
     performed w' = performed w ++ [Dispatch (SET_HAS_ACCESS (JBool true));
                                    Dispatch (SET_CREATOR (JBool false))] /\
     requests w' = requests w /\ inflight w' = inflight w /\
     timers w' = timers w /\ now w' = now w) /\
  (forall c, call_of st = Some c -> joined st = false ->
     hasAccess (session (mount st u t0)) = JBool true /\
     isCreator (session (mount st u t0)) = JBool false /\
     now (mount st u t0) = t0).
Proof.
  intros Hg He w.
  destruct (mount_guest st u t0 Hg) as [Hg0 Hp0].
  destruct (guest_run evs _ (mount_Inv st u t0) Hg0 Hp0 He) as [Hgw Hpw].
  assert (HI : Inv w) by apply run_Inv, mount_Inv.
  split; [exact Hpw|]. split; [apply no_timers; auto|]. split.
  - intros c Hc Hj w'. subst w'.
    rewrite (accessEffect_guest w c Hgw Hc Hj).
    repeat split; try reflexivity.
    + unfold performed; simpl. rewrite <- app_assoc, omap_app. reflexivity.
    + unfold requests; simpl. rewrite <- app_assoc, omap_app; simpl.
      apply app_nil_r.
  - intros c Hc Hj. unfold mount.
    set (w0 := mkWorld st u t0 ∅ 1%nat None [] []).
    rewrite (creatorEffect_issue w0 c Hc).
    rewrite (accessEffect_guest _ c); auto.
Qed.

(** C10.  The creator fetch has no guest guard: for a guest too it is sent
    at mount whenever [callId] is a non-empty string (and it is then the
    only request sent), and again each time [callId] changes to another
    non-empty string. *)
Theorem guest_creator_fetch st u t0 evs :
  isGuest u = true ->
  (forall c, call_of st = Some c ->
     requests (mount st u t0) = [(t0, mkRequest GET c Creator false)]) /\
  (let w := run (mount st u t0) evs in
   forall c, isGuest (user w) = true ->
     c <> "" -> Some c <> callId (session w) ->
     requests (step w (EvSetCallId (Some c))) =
     requests w ++ [(now w, mkRequest GET c Creator false)]).
Proof.
  intros Hg. split.
  - intros c Hc. unfold mount.
    set (w0 := mkWorld st u t0 ∅ 1%nat None [] []).
    rewrite accessEffect_guest_requests
      by (now destruct (creatorEffect_inputs w0) as (-> & _)).
    rewrite (creatorEffect_issue w0 c Hc). reflexivity.
  - intros w c Hgw Hne Hch. simpl.
    rewrite bool_decide_eq_false_2 by exact Hch.
    set (w0 := set_session _ w).
    assert (Hc : call_of (session (run_cleanup w0)) = Some c).
    { destruct (run_cleanup_inputs w0) as (_ & Hid & _).
      unfold call_of. rewrite Hid; simpl.
      destruct (String.eqb_spec c ""); [contradiction|reflexivity]. }
    rewrite accessEffect_guest_requests.
    + rewrite (creatorEffect_issue _ c Hc).
      transitivity
        (requests (observe (Requested (mkRequest GET c Creator false))
                           (run_cleanup w0))); [reflexivity|].
      rewrite requests_observe_req.
      unfold run_cleanup. destruct (cleanup w0); reflexivity.
    + destruct (creatorEffect_inputs (run_cleanup w0)) as (-> & _).
      now destruct (run_cleanup_inputs w0) as (-> & _).
Qed.

(** ** A call the backend does not know is an open room *)

Lemma ok_404 resp : (status resp =? 404) = true -> ok resp = false.
Proof.
  intros H. apply Z.eqb_eq in H. unfold ok. rewrite H. reflexivity.
Qed.

Lemma creator_404_session st c resp w :
  call_of st = Some c -> (status resp =? 404) = true ->
  open_room (session (exec (after_fetch (fetchCreatorInfo st) (Responded resp)) w)).
Proof.
  intros Hc H4. pose proof (issued_creator st c Hc) as Hi. resumed Hi.
  unfold fetchCreatorInfo. rewrite Hc. cbn -[Z.leb Z.eqb].
  rewrite (ok_404 _ H4), H4. repeat split.
Qed.

Lemma check_404_session c resp w :
  (status resp =? 404) = true ->
  open_room (session w) ->
  open_room (session (exec (after_fetch (checkAccess c) (Responded resp)) w)).
Proof.
  intros H4 (_ & _ & Hci). pose proof (issued_check c) as Hi. resumed Hi.
  cbn -[Z.leb Z.eqb]. rewrite (ok_404 _ H4), H4. repeat split. exact Hci.
Qed.

Lemma join_session st u c r w :
  call_of st = Some c -> isGuest u = false ->
  open_room (session w) ->
  open_room (session (exec (after_fetch (handleRequestAccess st u) r) w)).
Proof.
  intros Hc Hg Ho. pose proof (issued_join st u c Hc Hg) as Hi. resumed Hi.
  unfold handleRequestAccess. rewrite Hc, Hg.
  destruct r as [reason|resp]; branches; exact Ho.
Qed.

Lemma existsb_delete {A} (f : A -> bool) (l : list A) n x :
  l !! n = Some x -> f x = false -> existsb f (delete n l) = existsb f l.
Proof.
  revert n. induction l as [|a l IH]; intros [|n] Hl Hx; simpl in *;
    try discriminate.
  - injection Hl as ->. now rewrite Hx.
  - f_equal. now apply IH.
Qed.

Lemma accessEffect_open w : pending_or_open w -> pending_or_open (accessEffect w).
Proof.
  intros H.
  destruct (accessEffect_cases w)
    as [[_ ->]|[(c & Hj & Hc & Hg & ->)|(c & Hj & Hc & Hg & ->)]].
  - exact H.
  - destruct H as [H|(_ & _ & H)]; [left; exact H|right].
    repeat split. exact H.
  - destruct H as [H|H]; [left|right; exact H].
    unfold creator_pending in *; simpl. rewrite existsb_app, H. reflexivity.
Qed.

Lemma creatorEffect_open w : pending_or_open w -> pending_or_open (creatorEffect w).
Proof.
  intros H. destruct (call_of (session w)) as [c|] eqn:Hc.
  - rewrite (creatorEffect_issue _ _ Hc). left.
    unfold creator_pending; simpl. rewrite existsb_app; simpl.
    apply orb_true_r.
  - now rewrite (creatorEffect_idle _ Hc).
Qed.

Lemma run_cleanup_open w : pending_or_open w -> pending_or_open (run_cleanup w).
Proof. unfold run_cleanup. destruct (cleanup w); intros H; exact H. Qed.

Lemma step_open w e :
  Inv w -> probe_404 w e = true -> pending_or_open w ->
  pending_or_open (step w e).
Proof.
  intros [Hi Ht] H4 H.
  destruct e as [c|b|u|d|i|n r|]; simpl.
  - case_bool_decide; [exact H|].
    apply accessEffect_open, creatorEffect_open, run_cleanup_open. exact H.
  - case_bool_decide; [exact H|].
    apply accessEffect_open, run_cleanup_open. exact H.
  - case_bool_decide; [exact H|].
    apply accessEffect_open, run_cleanup_open. exact H.
  - destruct (may_wait d w); exact H.
  - destruct (timers w !! i) as [t|] eqn:Hl; [|exact H].
    unfold timer_inv in Ht. destruct (cleanup w) as [i0|] eqn:Hcl;
      [|rewrite Ht, lookup_empty in Hl; discriminate].
    destruct Ht as (c & d0 & Hts & _).
    rewrite Hts in Hl. apply lookup_singleton_Some in Hl as [-> <-].
    cbn [callback period]. rewrite exec_checkAccess.
    destruct H as [H|H]; [left|right; exact H].
    unfold creator_pending in *; simpl. rewrite existsb_app, H. reflexivity.
  - simpl in H4.
    destruct (inflight w !! n) as [[req k]|] eqn:Hl; [|exact H].
    assert (Hk : issued req k)
      by (apply (proj1 (Forall_lookup _ _) Hi n (req, k) Hl)).
    set (w0 := set_inflight (delete n (inflight w)) w).
    pose proof (issued_same_env req k r w0 Hk) as Hse.
    assert (Hpend : is_creator_fetch (req, k) = false ->
                    creator_pending (exec (k r) w0) = creator_pending w).
    { intros Hf. unfold creator_pending.
      destruct Hse as (_ & _ & _ & _ & _ & -> & _); simpl.
      now apply existsb_delete with (req, k). }
    destruct Hk as [st c Hc|c|st u c Hc Hg]; simpl in H4.
    + right. destruct r as [reason|resp]; [discriminate|].
      now apply creator_404_session with c.
    + destruct H as [H|H]; [left; now rewrite Hpend|right].
      destruct r as [reason|resp]; [discriminate|].
      now apply check_404_session.
    + destruct H as [H|H]; [left; now rewrite Hpend|right].
      now apply join_session with c.
  - unfold handleRequestAccess.
    destruct (call_of (session w)) as [c|] eqn:Hc; [|exact H].
    destruct (isGuest (user w)) eqn:Hg; simpl; [exact H|].
    destruct H as [H|H]; [left|right; exact H].
    unfold creator_pending in *; simpl. rewrite existsb_app, H. reflexivity.
Qed.

Lemma run_open evs : forall w,
  Inv w -> probes_404 w evs = true -> pending_or_open w ->
  pending_or_open (run w evs).
Proof.
  induction evs as [|e evs IH]; intros w HI H4 H; [exact H|].
  simpl in H4. apply andb_true_iff in H4 as [He Hes].
  apply (IH (step w e)); [apply step_Inv, HI|exact Hes|].
  now apply step_open.
Qed.

(** C1.  Take a component mounted on a call ([callId] a non-empty string),
    for any user, guest or identified, and any run in which the backend
    answers 404 to every creator fetch and every check-access fetch it
    answers.  As soon as no creator fetch is in flight any more, the session
    state has [hasAccess = true], [isCreator = false] and [creatorInfo =
    null], and it keeps them for the rest of the run. *)
Theorem unknown_call_is_open st u t0 c evs :
  call_of st = Some c ->
  probes_404 (mount st u t0) evs = true ->
  let w := run (mount st u t0) evs in
  creator_pending w = false ->
  hasAccess (session w) = JBool true /\
  isCreator (session w) = JBool false /\
  creatorInfo (session w) = JNull.
Proof.
  intros Hc H4 w Hp.
  assert (H0 : pending_or_open (mount st u t0)).
  { unfold mount. apply accessEffect_open.
    set (w0 := mkWorld st u t0 ∅ 1%nat None [] []).
    rewrite (creatorEffect_issue w0 c Hc). now left. }
  destruct (run_open evs _ (mount_Inv st u t0) H4 H0) as [H|H].
  - fold w in H. congruence.
  - exact H.
Qed.

(** ** The scenarios of the spec, run *)

Lemma isGuest_cases u :
  isGuest u = true <->
  u = None \/ user_id u = None \/ user_id u = Some "" \/ user_id u = Some "guest".
Proof.
  destruct u as [[[s|]]|]; simpl; [|tauto|tauto].
  rewrite orb_true_iff, !String.eqb_eq.
  split; [intros [->| ->]; auto|].
  intros [H|[H|[H|H]]]; try discriminate; injection H; auto.
Qed.

Lemma unknown_call_is_open_witness :
  open_room
    (session (run alice_world
                  [EvDeliver 1 not_found; EvTick 1; EvDeliver 0 not_found])).
Proof.
  apply (unknown_call_is_open call_abc alice 0 "abc123"); reflexivity.
Defined.

Lemma guest_access_is_local_witness :
  polls (run guest_world
             [EvWait 5000; EvDeliver 0 not_found; EvSetJoined true;
              EvSetJoined false]) = [] /\
  hasAccess (session guest_world) = JBool true.
Proof.
  destruct (guest_access_is_local call_abc guest_user 0
              [EvWait 5000; EvDeliver 0 not_found; EvSetJoined true;
               EvSetJoined false])
    as (Hp & _ & _ & Hm); [reflexivity|reflexivity|].
  split; [exact Hp|].
  apply (Hm "abc123"); reflexivity.
Defined.

Lemma handleRequestAccess_resets_witness :
  isRequestingAccess (session (step alice_world EvRequestAccess)) = true /\
  isRequestingAccess
    (session (run alice_world
                  [EvRequestAccess; EvDeliver 2 (Rejected "offline")])) = false.
Proof.
  destruct (handleRequestAccess_resets alice_world "abc123")
    as (_ & Hset & _ & Hreset); [reflexivity|reflexivity|].
  split; [exact Hset|].
  exact (proj1 (Hreset (Rejected "offline")
                  (set_inflight
                     (delete 2%nat (inflight (step alice_world EvRequestAccess)))
                     (step alice_world EvRequestAccess)))).
Defined.

Lemma polling_lifecycle_witness :
  polls (run alice_world [EvTick 1; EvTick 1]) =
  [(0, poll "abc123"); (3000, poll "abc123"); (6000, poll "abc123")] /\
  timers (run alice_world [EvTick 1; EvSetJoined true]) = ∅ /\
  polls (run (run alice_world [EvTick 1; EvSetJoined true])
             [EvTick 1; EvWait 9000; EvDeliver 0 not_found; EvRequestAccess]) =
  polls (run alice_world [EvTick 1; EvSetJoined true]).
Proof.
  split; [|split].
  - apply (proj2 (proj2 (proj2 (proj2 (proj2 (proj2 (proj2 (proj2
             (polling_lifecycle call_abc alice 0 [])))))))) "abc123" 2%nat);
      reflexivity.
  - apply (proj1 (proj2
             (polling_lifecycle call_abc alice 0 [EvTick 1; EvSetJoined true]))).
    left. reflexivity.
  - exact (proj1 (proj2 (proj2
             (polling_lifecycle call_abc alice 0 [EvTick 1; EvSetJoined true])))
             [EvTick 1; EvWait 9000; EvDeliver 0 not_found; EvRequestAccess]
             eq_refl eq_refl).
Defined.

Lemma fetchCreatorInfo_outcome_witness :
  exec (after_fetch (fetchCreatorInfo call_abc) server_error) alice_world
  = alice_world /\
  creatorInfo
    (session (exec (after_fetch (fetchCreatorInfo call_abc) not_found)
                   alice_world))
  = JNull.
Proof.
  split.
  - exact (proj2 (fetchCreatorInfo_outcome call_abc "abc123" server_error
                    alice_world eq_refl)).
  - exact (f_equal creatorInfo
             (proj2 (fetchCreatorInfo_outcome call_abc "abc123" not_found
                       alice_world eq_refl))).
Defined.

Lemma handleRequestAccess_error_text_witness :
  toasts (performed
            (run alice_world
                 [EvRequestAccess; EvDeliver 2 (Responded already_requested)]))
  = [ToastError (JStr "Already requested")] /\
  isRequestingAccess
    (session (run alice_world
                  [EvRequestAccess; EvDeliver 2 (Responded already_requested)]))
  = false.
Proof.
  exact (handleRequestAccess_error_text call_abc alice "abc123"
           already_requested
           (set_inflight
              (delete 2%nat (inflight (step alice_world EvRequestAccess)))
              (step alice_world EvRequestAccess))
           eq_refl eq_refl eq_refl).
Defined.

Lemma handleRequestAccess_guest_witness :
  session (step guest_world EvRequestAccess) = session guest_world /\
  requests (step guest_world EvRequestAccess) = requests guest_world /\
  performed (step guest_world EvRequestAccess) =
    performed guest_world ++
    [ToastInfo "Joining as guest. No approval required."].
Proof.
  destruct (handleRequestAccess_guest guest_world "abc123")
    as (Hw & Hs & Hr & _); [reflexivity|reflexivity|].
  split; [exact Hs|]. split; [exact Hr|].
  exact (f_equal performed Hw).
Defined.

Lemma guest_creator_fetch_witness :
  requests guest_world = [(0, mkRequest GET "abc123" Creator false)].
Proof.
  apply (proj1 (guest_creator_fetch call_abc guest_user 0 [] eq_refl) "abc123").
  reflexivity.
Defined.

(** C5 in its original wording does not hold.  The creator fetch of an
    identified user on call "abc123" (the first fetch in flight after the
    mount) is answered 500, which is neither 2xx nor 404: nothing is logged,
    where C5 has the failure logged. *)
Lemma fetchCreatorInfo_500_not_logged :
  (exists k, inflight alice_world !! 0%nat
             = Some (mkRequest GET "abc123" Creator false, k)) /\
  performed (run alice_world [EvDeliver 0 server_error]) = [] /\
  ~ exists msg err,
      In (ConsoleError msg err)
         (performed (run alice_world [EvDeliver 0 server_error])).
Proof.
  split; [eexists; reflexivity|]. split; [reflexivity|].
  intros (msg & err & []).
Qed.

(** C6 in its original wording does not hold.  The first check-access fetch
    of an identified user on call "abc123" (the second fetch in flight after
    the mount) is answered 500, which is neither 2xx nor 404: nothing is
    logged, where C6 has the failure logged. *)
Lemma checkAccess_500_not_logged :
  (exists k, inflight alice_world !! 1%nat = Some (poll "abc123", k)) /\
  performed (run alice_world [EvDeliver 1 server_error]) = [] /\
  ~ exists msg err,
      In (ConsoleError msg err)
         (performed (run alice_world [EvDeliver 1 server_error])).
Proof.
  split; [eexists; reflexivity|]. split; [reflexivity|].
  intros (msg & err & []).
Qed.

(** * Further properties of the hook *)

Lemma call_of_nonempty st c : call_of st = Some c -> c <> "".
Proof.
  unfold call_of. destruct (callId st) as [s|]; [|discriminate].
  destruct (String.eqb_spec s ""); [discriminate|]. congruence.
Qed.

Lemma call_of_eqb st c : call_of st = Some c -> String.eqb c "" = false.
Proof.
  intros H. apply call_of_nonempty in H. now apply String.eqb_neq.
Qed.

Lemma log_ok_observe o w : log_ok (observe o w) = log_ok w && entry_ok o.
Proof.
  unfold log_ok; simpl. rewrite forallb_app; simpl. now rewrite andb_true_r.
Qed.

Lemma log_ok_do_cmds cs w : log_ok (do_cmds cs w) = log_ok w.
Proof.
  unfold log_ok. rewrite log_do_cmds, forallb_app.
  replace (forallb _ (map _ cs)) with true; [apply andb_true_r|].
  induction cs as [|c cs IH]; simpl; auto.
Qed.

Lemma log_ok_issued req k r w : issued req k -> log_ok (exec (k r) w) = log_ok w.
Proof.
  intros Hi. rewrite (exec_straight _ _ (issued_straight _ _ r Hi)).
  apply log_ok_do_cmds.
Qed.

Lemma log_ok_creatorEffect w : log_ok w = true -> log_ok (creatorEffect w) = true.
Proof.
  intros H. destruct (call_of (session w)) as [c|] eqn:Hc.
  - rewrite (creatorEffect_issue _ _ Hc).
    change (log_ok (observe (Requested (mkRequest GET c Creator false)) w) = true).
    rewrite log_ok_observe, H; simpl. unfold request_ok; simpl.
    now rewrite (call_of_eqb _ _ Hc).
  - now rewrite (creatorEffect_idle _ Hc).
Qed.

Lemma log_ok_accessEffect w : log_ok w = true -> log_ok (accessEffect w) = true.
Proof.
  intros H.
  destruct (accessEffect_cases w)
    as [[_ ->]|[(c & Hj & Hc & Hg & ->)|(c & Hj & Hc & Hg & ->)]].
  - exact H.
  - change (log_ok (do_cmds [Dispatch (SET_HAS_ACCESS (JBool true));
                             Dispatch (SET_CREATOR (JBool false))] w) = true).
    now rewrite log_ok_do_cmds.
  - change (log_ok (observe (Requested (poll c)) w) = true).
    rewrite log_ok_observe, H; simpl. unfold request_ok; simpl.
    now rewrite (call_of_eqb _ _ Hc).
Qed.

Lemma log_ok_run_cleanup w : log_ok (run_cleanup w) = log_ok w.
Proof. unfold run_cleanup. destruct (cleanup w); reflexivity. Qed.

Lemma step_log_ok w e : Inv w -> log_ok w = true -> log_ok (step w e) = true.
Proof.
  intros [Hi Ht] H.
  destruct e as [c|b|u|d|i|n r|]; simpl.
  - case_bool_decide; [exact H|].
    apply log_ok_accessEffect, log_ok_creatorEffect.
    now rewrite log_ok_run_cleanup.
  - case_bool_decide; [exact H|].
    apply log_ok_accessEffect. now rewrite log_ok_run_cleanup.
  - case_bool_decide; [exact H|].
    apply log_ok_accessEffect. now rewrite log_ok_run_cleanup.
  - destruct (may_wait d w); exact H.
  - destruct (timers w !! i) as [t|] eqn:Hl; [|exact H].
    unfold timer_inv in Ht. destruct (cleanup w) as [i0|] eqn:Hcl;
      [|rewrite Ht, lookup_empty in Hl; discriminate].
    destruct Ht as (c & d0 & Hts & Hc & _).
    rewrite Hts in Hl. apply lookup_singleton_Some in Hl as [-> <-].
    cbn [callback period]. rewrite exec_checkAccess.
    match goal with
    | |- log_ok (set_inflight _ (observe ?o ?w0)) = true =>
        change (log_ok (observe o w0) = true); rewrite log_ok_observe
    end.
    change (log_ok w && request_ok (poll c) = true). rewrite H.
    unfold request_ok; simpl. now rewrite (call_of_eqb _ _ Hc).
  - destruct (inflight w !! n) as [[req k]|] eqn:Hl; [|exact H].
    assert (Hk : issued req k)
      by (apply (proj1 (Forall_lookup _ _) Hi n (req, k) Hl)).
    now rewrite (log_ok_issued req k r _ Hk).
  - unfold handleRequestAccess.
    destruct (call_of (session w)) as [c|] eqn:Hc; [|exact H].
    destruct (isGuest (user w)) eqn:Hg; simpl.
    + change (log_ok (observe (Performed (ToastInfo
                "Joining as guest. No approval required.")) w) = true).
      now rewrite log_ok_observe, H.
    + unfold log_ok; simpl. rewrite !forallb_app; simpl.
      unfold log_ok in H. rewrite H. unfold request_ok; simpl.
      now rewrite (call_of_eqb _ _ Hc).
Qed.

Lemma run_log_ok evs : forall w,
  Inv w -> log_ok w = true -> log_ok (run w evs) = true.
Proof.
  induction evs as [|e evs IH]; intros w HI H; [exact H|].
  apply (IH (step w e)); [apply step_Inv, HI|now apply step_log_ok].
Qed.

Lemma mount_log_ok st u t0 : log_ok (mount st u t0) = true.
Proof.
  unfold mount. apply log_ok_accessEffect, log_ok_creatorEffect. reflexivity.
Qed.

(** X1.  The hook never lets a rejection escape: whatever the backend
    answers and in whatever order, and whatever the user and the context do,
    no async function of the hook ends in an unhandled rejection. *)
Theorem no_unhandled_rejection st u t0 evs t err :
  ~ In (t, Unhandled err) (log (run (mount st u t0) evs)).
Proof.
  intros Hin.
  pose proof (run_log_ok evs _ (mount_Inv st u t0) (mount_log_ok st u t0)) as H.
  unfold log_ok in H. rewrite forallb_forall in H.
  specialize (H _ Hin). discriminate.
Qed.

(** X2.  Every request the hook ever sends names a non-empty call
    identifier; the creator and check-access requests are GETs without a
    JSON content type, the request-join is a POST with one. *)
Theorem requests_well_formed st u t0 evs t r :
  In (t, r) (requests (run (mount st u t0) evs)) ->
  req_call r <> "" /\
  match req_endpoint r with
  | RequestJoin => req_method r = POST /\ req_json_header r = true
  | Creator | CheckAccess => req_method r = GET /\ req_json_header r = false
  end.
Proof.
  intros Hin.
  pose proof (run_log_ok evs _ (mount_Inv st u t0) (mount_log_ok st u t0)) as H.
  unfold log_ok in H. rewrite forallb_forall in H.
  unfold requests in Hin. apply list_elem_of_In, list_elem_of_omap in Hin.
  destruct Hin as ([t' o] & Hin & Ho); simpl in Ho.
  destruct o as [r'| |]; try discriminate. injection Ho as -> ->.
  apply list_elem_of_In in Hin. specialize (H _ Hin); simpl in H.
  unfold request_ok in H. apply andb_true_iff in H as [Hc Hs].
  split; [apply String.eqb_neq; now destruct (String.eqb (req_call r) "")|].
  destruct (req_endpoint r); apply andb_true_iff in Hs as [Hm Hh];
    apply bool_decide_eq_true in Hm; split; auto;
    now destruct (req_json_header r).
Qed.

Lemma untouched_step st w e :
  call_of (session w) = None -> untouched st w ->
  match e with EvSetCallId _ => false | _ => true end = true ->
  call_of (session (step w e)) = None /\ untouched st (step w e).
Proof.
  intros Hc (Hl & Hf & Ht & Hcl & Hh & Hi & Hr & Hci) He.
  destruct e as [c|b|u|d|i|n r|]; simpl; try discriminate.
  - case_bool_decide; [repeat split; assumption|].
    unfold run_cleanup; simpl. rewrite Hcl.
    unfold accessEffect; simpl.
    replace (call_of (with_joined b (session w))) with (@None string)
      by (symmetry; exact Hc).
    destruct b; repeat split; assumption.
  - case_bool_decide; [repeat split; assumption|].
    unfold run_cleanup; simpl. rewrite Hcl.
    unfold accessEffect; simpl. rewrite Hc.
    destruct (joined (session w)); repeat split; assumption.
  - destruct (may_wait d w); repeat split; assumption.
  - rewrite Ht, lookup_empty. repeat split; assumption.
  - rewrite Hf. repeat split; assumption.
  - unfold handleRequestAccess. rewrite Hc. repeat split; assumption.
Qed.

(** X3.  Without a call identifier ([callId] null or empty) the hook is
    inert: as long as [callId] is not set, and whatever else happens (the
    user changes, [joined] flips, time passes, the UI asks for access),
    nothing is sent, nothing is dispatched, no notification is shown, no
    timer is set, and the fields the hook exposes keep their values. *)
Theorem inert_without_call st u t0 evs :
  call_of st = None -> keeps_callId evs = true ->
  let w := run (mount st u t0) evs in
  log w = [] /\ inflight w = [] /\ timers w = ∅ /\
  hasAccess (session w) = hasAccess st /\
  isCreator (session w) = isCreator st /\
  isRequestingAccess (session w) = isRequestingAccess st /\
  creatorInfo (session w) = creatorInfo st.
Proof.
  intros Hc He w.
  assert (H0 : call_of (session (mount st u t0)) = None /\
               untouched st (mount st u t0)).
  { unfold mount.
    set (w0 := mkWorld st u t0 ∅ 1%nat None [] []).
    rewrite (creatorEffect_idle w0 Hc).
    unfold accessEffect; simpl. rewrite Hc.
    destruct (joined st); repeat split; assumption. }
  assert (H : call_of (session w) = None /\ untouched st w).
  { subst w. revert H0 He. generalize (mount st u t0).
    induction evs as [|e evs IH]; intros w0 [Hc0 Hu0] He; [auto|].
    simpl in He. apply andb_true_iff in He as [He Hes].
    apply (IH (step w0 e)); [|exact Hes].
    now apply untouched_step. }
  destruct H as (_ & Hl & Hf & Ht & _ & Hrest). auto.
Qed.

Lemma join_performed st u c r w :
  call_of st = Some c -> isGuest u = false ->
  performed (exec (after_fetch (handleRequestAccess st u) r) w) =
  performed w ++ effects (after_fetch (handleRequestAccess st u) r).
Proof.
  intros Hc Hg. pose proof (issued_join st u c Hc Hg) as Hi.
  now resumed Hi.
Qed.

(** X4.  When the request-join POST is answered with a 2xx status, the
    success notification is shown and [isRequestingAccess] is cleared; the
    body of the answer is never read, so a 2xx with an empty or malformed
    body is a success too, and nothing is logged. *)
Theorem handleRequestAccess_success st u c resp w :
  call_of st = Some c -> isGuest u = false -> ok resp = true ->
  performed (exec (after_fetch (handleRequestAccess st u) (Responded resp)) w) =
  performed w ++
  [ToastSuccess "Request sent! Please wait for the host to approve.";
   Dispatch (SET_REQUESTING_ACCESS false)].
Proof.
  intros Hc Hg Hok. rewrite (join_performed st u c _ w Hc Hg). f_equal.
  unfold handleRequestAccess. rewrite Hc, Hg. cbn -[Z.leb Z.eqb].
  now rewrite Hok.
Qed.

(** X5.  When the request-join fetch rejects, or is answered with a non-2xx
    status and a body that is not JSON or is [null], the failure is logged
    with [console.error], the default error notification is shown, and
    [isRequestingAccess] is cleared, in that order. *)
Theorem handleRequestAccess_caught st u c r w :
  call_of st = Some c -> isGuest u = false ->
  forall err,
  match r with
  | Rejected reason => err = FetchRejected reason
  | Responded resp =>
      ok resp = false /\
      match body resp with
      | None => err = JsonSyntaxError
      | Some JNull | Some JUndefined => err = TypeError
      | Some _ => False
      end
  end ->
  performed (exec (after_fetch (handleRequestAccess st u) r) w) =
  performed w ++
  [ConsoleError "Error requesting access:" err;
   ToastError default_error;
   Dispatch (SET_REQUESTING_ACCESS false)].
Proof.
  intros Hc Hg err Hr. rewrite (join_performed st u c _ w Hc Hg). f_equal.
  unfold handleRequestAccess. rewrite Hc, Hg.
  destruct r as [reason|resp]; cbn -[Z.leb Z.eqb].
  - now subst err.
  - destruct Hr as [Hok Hb]. rewrite Hok. unfold json.
    destruct (body resp) as [[]|]; try contradiction; now subst err.
Qed.

Lemma join_resets st u c r w :
  call_of st = Some c -> isGuest u = false ->
  isRequestingAccess
    (session (exec (after_fetch (handleRequestAccess st u) r) w)) = false.
Proof.
  intros Hc Hg. pose proof (issued_join st u c Hc Hg) as Hi. resumed Hi.
  unfold handleRequestAccess. rewrite Hc, Hg.
  destruct r as [reason|resp]; branches; reflexivity.
Qed.

Lemma request_access_step (w : World) c :
  call_of (session w) = Some c -> isGuest (user w) = false ->
  let w' := step w EvRequestAccess in
  inflight w' =
    inflight w ++ [(join_request c,
                    after_fetch (handleRequestAccess (session w) (user w)))] /\
  call_of (session w') = Some c /\ user w' = user w /\
  isRequestingAccess (session w') = true.
Proof.
  intros Hc Hg; simpl.
  rewrite (handleRequestAccess_issue _ _ c Hc Hg); simpl.
  repeat split. exact Hc.
Qed.

Lemma delete_app_length {A} (l : list A) a rest :
  delete (length l) (l ++ a :: rest) = l ++ rest.
Proof. induction l as [|x l IH]; simpl; [reflexivity|]. now rewrite IH. Qed.

(** X6.  Requests for access are not deduplicated.  If the UI calls
    [handleRequestAccess] twice before the first POST is answered, two POSTs
    are in flight; and as soon as the first one settles, however it settles,
    [isRequestingAccess] is back to false although the second is still in
    flight. *)
Theorem overlapping_requests (w : World) c r :
  call_of (session w) = Some c -> isGuest (user w) = false ->
  let w2 := run w [EvRequestAccess; EvRequestAccess] in
  let w3 := step w2 (EvDeliver (length (inflight w)) r) in
  map fst (inflight w2) =
    map fst (inflight w) ++ [join_request c; join_request c] /\
  isRequestingAccess (session w2) = true /\
  map fst (inflight w3) = map fst (inflight w) ++ [join_request c] /\
  isRequestingAccess (session w3) = false.
Proof.
  intros Hc Hg w2 w3.
  destruct (request_access_step w c Hc Hg) as (Hf1 & Hc1 & Hu1 & _).
  assert (Hg1 : isGuest (user (step w EvRequestAccess)) = false)
    by now rewrite Hu1.
  destruct (request_access_step _ c Hc1 Hg1) as (Hf2 & _ & _ & Hr2).
  assert (Hfl : inflight w2 =
            inflight w ++
            [(join_request c,
              after_fetch (handleRequestAccess (session w) (user w)));
             (join_request c,
              after_fetch (handleRequestAccess
                             (session (step w EvRequestAccess))
                             (user (step w EvRequestAccess))))]).
  { subst w2. cbn [run fold_left]. rewrite Hf2, Hf1, <- app_assoc.
    reflexivity. }
  split; [rewrite Hfl, map_app; reflexivity|].
  split; [exact Hr2|].
  subst w3. cbn [step]. rewrite Hfl.
  rewrite lookup_app_r, Nat.sub_diag by lia. cbn [lookup list_lookup].
  rewrite delete_app_length.
  split; [|now apply (join_resets _ _ c)].
  pose proof (handleRequestAccess_issue _ _ c Hc Hg) as His.
  pose proof (issued_join _ _ c Hc Hg) as Hi.
  destruct (issued_same_env _ _ r
              (set_inflight
                 (inflight w ++
                  [(join_request c,
                    after_fetch (handleRequestAccess
                                   (session (step w EvRequestAccess))
                                   (user (step w EvRequestAccess))))]) w2) Hi)
    as (_ & _ & _ & _ & _ & -> & _).
  simpl. now rewrite map_app.
Qed.

Lemma guest_idle w : Inv w -> isGuest (user w) = true -> idle w.
Proof.
  intros [_ Ht] Hg. unfold timer_inv in Ht. unfold idle.
  destruct (cleanup w); [|auto].
  destruct Ht as (c & d & _ & _ & _ & Hg' & _). congruence.
Qed.

Lemma isGuest_differs u u' : isGuest u <> isGuest u' -> user_id u <> user_id u'.
Proof. intros H Hid. apply H. now apply isGuest_user_id. Qed.

(** X7.  Signing in on a call not yet joined starts the poll at once: when
    the user changes from a guest to an identified user, a check-access
    request for the current call leaves immediately and the interval timer is
    set, due 3000 ms later; the session state is not touched. *)
Theorem sign_in_starts_polling st u0 t0 evs c u :
  let w := run (mount st u0 t0) evs in
  call_of (session w) = Some c -> joined (session w) = false ->
  isGuest (user w) = true -> isGuest u = false ->
  let w' := step w (EvSetUser u) in
  polls w' = polls w ++ [(now w, poll c)] /\
  timers w' =
    {[ next_timer w := mkTimer 3000 (now w + 3000) (checkAccess c) ]} /\
  session w' = session w.
Proof.
  intros w Hc Hj Hg Hg' w'.
  assert (HI : Inv w) by apply run_Inv, mount_Inv.
  destruct (guest_idle w HI Hg) as [Hcl Hts].
  subst w'. cbn [step].
  rewrite bool_decide_eq_false_2
    by (apply isGuest_differs; rewrite Hg, Hg'; discriminate).
  unfold run_cleanup; simpl. rewrite Hcl.
  unfold accessEffect; simpl. rewrite Hj, Hc, Hg'; simpl.
  rewrite Hts, insert_empty. repeat split.
  exact (polls_observe_req (poll c) (set_user u w)).
Qed.

(** X8.  Signing out on a call not yet joined stops the poll and opens the
    door: when the user changes from an identified user to a guest, the
    interval timer is cleared, no request leaves, and [hasAccess = true],
    [isCreator = false] are dispatched at once. *)
Theorem sign_out_stops_polling st u0 t0 evs c u :
  let w := run (mount st u0 t0) evs in
  call_of (session w) = Some c -> joined (session w) = false ->
  isGuest (user w) = false -> isGuest u = true ->
  let w' := step w (EvSetUser u) in
  timers w' = ∅ /\ requests w' = requests w /\
  hasAccess (session w') = JBool true /\
  isCreator (session w') = JBool false.
Proof.
  intros w Hc Hj Hg Hg' w'.
  assert (HI : Inv w) by apply run_Inv, mount_Inv.
  subst w'. cbn [step].
  rewrite bool_decide_eq_false_2
    by (apply isGuest_differs; rewrite Hg, Hg'; discriminate).
  rewrite (run_cleanup_eq (set_user u w))
    by exact (timer_inv_shape w (proj2 HI)).
  rewrite (accessEffect_guest _ c); auto.
  repeat split.
  unfold requests; simpl. rewrite <- app_assoc, omap_app; simpl.
  apply app_nil_r.
Qed.

(** X9.  A new call identifier restarts everything for an identified user
    who has not joined: the creator fetch and then the first check-access
    fetch for the new identifier leave at once, in that order, and the only
    timer left is a new one that polls the new identifier. *)
Theorem new_call_restarts st u0 t0 evs c :
  let w := run (mount st u0 t0) evs in
  c <> "" -> Some c <> callId (session w) ->
  joined (session w) = false -> isGuest (user w) = false ->
  let w' := step w (EvSetCallId (Some c)) in
  requests w' =
    requests w ++ [(now w, creator_request c); (now w, poll c)] /\
  map fst (inflight w') =
    map fst (inflight w) ++ [creator_request c; poll c] /\
  timers w' =
    {[ next_timer w := mkTimer 3000 (now w + 3000) (checkAccess c) ]}.
Proof.
  intros w Hne Hch Hj Hg w'.
  assert (HI : Inv w) by apply run_Inv, mount_Inv.
  subst w'. cbn [step].
  rewrite bool_decide_eq_false_2 by exact Hch.
  set (w0 := set_session (with_callId (Some c) (session w)) w).
  rewrite (run_cleanup_eq w0) by exact (timer_inv_shape w (proj2 HI)).
  set (w1 := set_cleanup None (set_timers ∅ w0)).
  assert (Hc : call_of (session w1) = Some c).
  { unfold call_of; simpl.
    destruct (String.eqb_spec c ""); [contradiction|reflexivity]. }
  rewrite (creatorEffect_issue w1 c Hc).
  unfold accessEffect; simpl.
  destruct (String.eqb_spec c ""); [contradiction|].
  rewrite Hj; simpl.
  unfold call_of; simpl. destruct (String.eqb_spec c ""); [contradiction|].
  rewrite Hg; simpl. rewrite insert_empty. repeat split.
  - unfold requests; simpl. rewrite <- !app_assoc, !omap_app. reflexivity.
  - rewrite <- !app_assoc, !map_app. reflexivity.
Qed.

Lemma issued_poll c k : issued (poll c) k -> k = after_fetch (checkAccess c).
Proof.
  intros H. inversion H; subst; reflexivity.
Qed.

Lemma check_ok_session c resp fs w :
  ok resp = true -> body resp = Some (JObj fs) ->
  session (exec (after_fetch (checkAccess c) (Responded resp)) w) =
  reducer (reducer (session w) (SET_HAS_ACCESS (field "hasAccess" fs)))
          (SET_CREATOR (field "isCreator" fs)).
Proof.
  intros Hok Hb. pose proof (issued_check c) as Hi. resumed Hi.
  cbn -[Z.leb Z.eqb]. rewrite Hok. unfold json. rewrite Hb. reflexivity.
Qed.

(** X10.  Answers are applied as they come, with no check of what they
    answer: when a check-access fetch in flight is answered 2xx with a JSON
    object, [hasAccess] and [isCreator] are overwritten with the body's
    values whatever the current [callId] and [joined] are, so also when the
    request was sent for a call identifier that has since been replaced, or
    when the call has been joined in the meantime (last answer wins). *)
Theorem late_answer_is_applied st u t0 evs n c k resp fs :
  let w := run (mount st u t0) evs in
  inflight w !! n = Some (poll c, k) ->
  ok resp = true -> body resp = Some (JObj fs) ->
  let w' := step w (EvDeliver n (Responded resp)) in
  hasAccess (session w') = field "hasAccess" fs /\
  isCreator (session w') = field "isCreator" fs /\
  callId (session w') = callId (session w) /\
  joined (session w') = joined (session w) /\
  inflight w' = delete n (inflight w).
Proof.
  intros w Hl Hok Hb w'.
  assert (HI : Inv w) by apply run_Inv, mount_Inv.
  assert (Hk : issued (poll c) k)
    by (apply (proj1 (Forall_lookup _ _) (proj1 HI) n (poll c, k) Hl)).
  subst w'. cbn [step]. rewrite Hl.
  destruct (issued_same_env _ _ (Responded resp)
              (set_inflight (delete n (inflight w)) w) Hk)
    as (_ & _ & _ & _ & _ & Hfl & _ & Hid & Hjo).
  rewrite Hfl, Hid, Hjo.
  rewrite (issued_poll c k Hk), (check_ok_session c resp fs _ Hok Hb).
  repeat split.
Qed.

Lemma creator_fetches_observe r w :
  creator_fetches (observe (Requested r) w) =
  creator_fetches w ++ (if bool_decide (req_endpoint r = Creator)
                        then [(now w, r)] else []).
Proof.
  unfold creator_fetches, requests; simpl. rewrite omap_app, filter_app; simpl.
  f_equal. rewrite filter_cons; simpl.
  case_bool_decide; case_decide; try contradiction; reflexivity.
Qed.

Lemma creator_fetches_same_env w w' :
  same_env w w' -> creator_fetches w' = creator_fetches w.
Proof.
  intros (_ & _ & _ & _ & _ & _ & H & _). unfold creator_fetches. now rewrite H.
Qed.

Lemma creator_fetches_accessEffect w :
  creator_fetches (accessEffect w) = creator_fetches w.
Proof.
  destruct (accessEffect_cases w)
    as [[_ ->]|[(c & Hj & Hc & Hg & ->)|(c & Hj & Hc & Hg & ->)]].
  - reflexivity.
  - apply (creator_fetches_same_env w (do_cmds _ w)), same_env_do_cmds.
  - rewrite <- (app_nil_r (creator_fetches w)).
    exact (creator_fetches_observe (poll c) w).
Qed.

Lemma creator_fetches_run_cleanup w :
  creator_fetches (run_cleanup w) = creator_fetches w.
Proof. unfold run_cleanup. destruct (cleanup w); reflexivity. Qed.

Lemma step_creator_fetches w e :
  Inv w -> match e with EvSetCallId _ => false | _ => true end = true ->
  creator_fetches (step w e) = creator_fetches w.
Proof.
  intros [Hi Ht] He.
  destruct e as [c|b|u|d|i|n r|]; simpl; try discriminate.
  - case_bool_decide; [reflexivity|].
    now rewrite creator_fetches_accessEffect, creator_fetches_run_cleanup.
  - case_bool_decide; [reflexivity|].
    now rewrite creator_fetches_accessEffect, creator_fetches_run_cleanup.
  - destruct (may_wait d w); reflexivity.
  - destruct (timers w !! i) as [t|] eqn:Hl; [|reflexivity].
    unfold timer_inv in Ht. destruct (cleanup w) as [i0|] eqn:Hcl;
      [|rewrite Ht, lookup_empty in Hl; discriminate].
    destruct Ht as (c & d0 & Hts & _).
    rewrite Hts in Hl. apply lookup_singleton_Some in Hl as [-> <-].
    cbn [callback period]. rewrite exec_checkAccess.
    rewrite <- (app_nil_r (creator_fetches w)).
    exact (creator_fetches_observe (poll c) (set_timers _ (set_now _ w))).
  - destruct (inflight w !! n) as [[req k]|] eqn:Hl; [|reflexivity].
    assert (Hk : issued req k)
      by (apply (proj1 (Forall_lookup _ _) Hi n (req, k) Hl)).
    apply (creator_fetches_same_env (set_inflight (delete n (inflight w)) w)).
    now apply issued_same_env with req.
  - unfold handleRequestAccess.
    destruct (call_of (session w)) as [c|] eqn:Hc; [|reflexivity].
    destruct (isGuest (user w)) eqn:Hg; simpl.
    + exact (creator_fetches_same_env w _
               (same_env_do_cmd
                  (ToastInfo "Joining as guest. No approval required.") w)).
    + set (w1 := do_cmd (Dispatch (SET_REQUESTING_ACCESS true)) w).
      transitivity (creator_fetches w1);
        [|exact (creator_fetches_same_env w w1 (same_env_do_cmd _ w))].
      rewrite <- (app_nil_r (creator_fetches w1)).
      exact (creator_fetches_observe (join_request c) w1).
Qed.

(** X11.  The creator fetch is sent once per call identifier: as long as
    [callId] is not set again, the creator request of the mount is the only
    one ever sent, whatever its answer (an error, a rejection) and whatever
    else happens (ticks, joins, sign-ins, requests for access). *)
Theorem creator_fetched_once st u t0 evs :
  keeps_callId evs = true ->
  creator_fetches (run (mount st u t0) evs) =
  match call_of st with
  | Some c => [(t0, creator_request c)]
  | None => []
  end.
Proof.
  intros He.
  transitivity (creator_fetches (mount st u t0)).
  - pose proof (mount_Inv st u t0) as HI. revert HI He.
    generalize (mount st u t0).
    induction evs as [|e evs IH]; intros w HI He; [reflexivity|].
    simpl in He. apply andb_true_iff in He as [He Hes]. simpl.
    rewrite (IH (step w e) (step_Inv w e HI) Hes).
    now apply step_creator_fetches.
  - unfold mount. rewrite creator_fetches_accessEffect.
    set (w0 := mkWorld st u t0 ∅ 1%nat None [] []).
    destruct (call_of st) as [c|] eqn:Hc.
    + rewrite (creatorEffect_issue w0 c Hc). reflexivity.
    + rewrite (creatorEffect_idle w0 Hc). reflexivity.
Qed.

(** * Room identifiers *)

Lemma string_length_app s1 s2 :
  String.length (s1 +:+ s2) = (String.length s1 + String.length s2)%nat.
Proof. induction s1 as [|a s1 IH]; simpl; [reflexivity|]. now rewrite IH. Qed.

Lemma list_ascii_app s1 s2 :
  list_ascii_of_string (s1 +:+ s2) =
  list_ascii_of_string s1 ++ list_ascii_of_string s2.
Proof. induction s1 as [|a s1 IH]; simpl; [reflexivity|]. now rewrite IH. Qed.

Lemma get_In s : forall i a,
  String.get i s = Some a -> In a (list_ascii_of_string s).
Proof.
  induction s as [|b s IH]; intros [|i] a H; simpl in *; try discriminate.
  - left. congruence.
  - right. eauto.
Qed.

Lemma get_in_range s : forall i,
  (i < String.length s)%nat -> exists a, String.get i s = Some a.
Proof.
  induction s as [|b s IH]; intros [|i] H; simpl in *; try lia; eauto.
  apply IH. lia.
Qed.

Lemma room_loop_spec index n : forall i result,
  (forall j, (i <= j < i + n)%nat -> (index j < String.length characters)%nat) ->
  String.length (room_loop index n i result) = (String.length result + n)%nat /\
  (Forall (fun a => In a (list_ascii_of_string characters))
          (list_ascii_of_string result) ->
   Forall (fun a => In a (list_ascii_of_string characters))
          (list_ascii_of_string (room_loop index n i result))).
Proof.
  induction n as [|n IH]; intros i result Hidx; cbn [room_loop].
  - split; [lia|auto].
  - destruct (get_in_range characters (index i)) as [a Ha];
      [apply Hidx; lia|].
    destruct (IH (S i) (result +:+ charAt characters (index i))) as [Hl Hc];
      [intros j Hj; apply Hidx; lia|].
    unfold charAt in *. rewrite Ha in *.
    split.
    + rewrite Hl, string_length_app. simpl. lia.
    + intros Hr. apply Hc. rewrite list_ascii_app. apply Forall_app. split; [exact Hr|].
      apply Forall_singleton. now apply get_In with (index i).
Qed.

(** X12.  A generated room identifier is eight characters long and made of
    lower-case letters and digits only (so it is never empty), provided each
    random index is below the size of the alphabet, as
    [Math.floor(Math.random() * 36)] is. *)
Theorem generateRoomId_shape index :
  (forall i, (i < 8)%nat -> (index i < String.length characters)%nat) ->
  String.length (generateRoomId index) = 8%nat /\
  Forall (fun a => In a (list_ascii_of_string characters))
         (list_ascii_of_string (generateRoomId index)) /\
  generateRoomId index <> "".
Proof.
  intros Hidx.
  destruct (room_loop_spec index 8 0 "") as [Hl Hc];
    [intros j Hj; apply Hidx; lia|].
  fold (generateRoomId index) in Hl, Hc.
  split; [exact Hl|]. split; [apply Hc; constructor|].
  intros He. rewrite He in Hl. discriminate.
Qed.

(** * The waitlist form *)

(** X13.  Storing and reading back.  In a browser (a [window] exists) whose
    storage accepts writing [value] under [key], [setLocalStorageItem] logs
    nothing and afterwards [getLocalStorageItem] returns [value] for [key]
    if storage can be read, and what it returned before for every other
    key.  If the write is refused, the items are left as they were and
    exactly one [console.error] is logged; neither function throws. *)
Theorem storage_round_trip key value b :
  window_defined b = true ->
  let b' := (setLocalStorageItem key value b).1 in
  let logged := (setLocalStorageItem key value b).2 in
  same_browser b b' /\
  if storage_accepts b key value then
    logged = [] /\
    getLocalStorageItem key b' =
      (if storage_readable b then Some value else None) /\
    forall k, k <> key -> getLocalStorageItem k b' = getLocalStorageItem k b
  else
    b' = b /\
    logged = [LogError "Failed to set localStorage item" key value].
Proof.
  intros Hw. unfold setLocalStorageItem, localStorage_setItem.
  rewrite Hw; simpl.
  destruct (storage_accepts b key value) eqn:Ha; simpl.
  - split; [repeat split; auto|]. split; [reflexivity|].
    unfold getLocalStorageItem, localStorage_getItem; simpl. rewrite ?Hw; simpl.
    split.
    + destruct (storage_readable b); [apply lookup_insert_eq|reflexivity].
    + intros k Hk. destruct (storage_readable b); [|reflexivity].
      now apply lookup_insert_ne.
  - repeat split.
Qed.

Lemma setLocalStorageItem_same key value b :
  same_browser b (setLocalStorageItem key value b).1.
Proof.
  unfold setLocalStorageItem, localStorage_setItem.
  destruct (window_defined b) eqn:Hw; simpl; [|repeat split; auto].
  destruct (storage_accepts b key value) eqn:Ha; simpl; repeat split; auto.
Qed.

Lemma same_browser_trans b1 b2 b3 :
  same_browser b1 b2 -> same_browser b2 b3 -> same_browser b1 b3.
Proof. unfold same_browser. intuition congruence. Qed.

Lemma same_browser_refl b : same_browser b b.
Proof. repeat split. Qed.


(** X14.  What the visitor is told when joining fails.  If the join request
    is answered with a non-2xx status, the error notification shows the
    [error] string of the response body when it has a non-empty one, and
    "Failed to join waitlist" when the body has none or is not JSON at all
    (a body that cannot be parsed is taken for an empty object); the
    component state and the storage are left as they were. *)
Theorem join_failure_is_shown response st b :
  ok response = false ->
  let shown :=
    match body response with
    | Some (JObj fs) =>
        match field "error" fs with
        | JStr s => if String.eqb s "" then Text "Failed to join waitlist"
                    else Text s
        | v => if truthy v then StringOf v else Text "Failed to join waitlist"
        end
    | Some JNull | Some JUndefined => EngineText TypeError
    | _ => Text "Failed to join waitlist"
    end in
  settle (Responded response) st b = (st, b, [WToastError shown]).
Proof.
  intros Hok. unfold settle, joinWaitlist. rewrite Hok; simpl.
  destruct (body response) as [[]|]; simpl; try reflexivity.
  unfold js_or.
  destruct (field "error" fields) as [| |[]|n|s| |] eqn:He; simpl;
    try reflexivity.
  - destruct (n =? 0); reflexivity.
  - destruct (String.eqb s ""); reflexivity.
Qed.


Lemma visit_fold b rs : visit b rs = fold_left visit_step rs (load b).
Proof. reflexivity. Qed.

Lemma successEffect_spec st b :
  let st' := (successEffect st b).1.1 in
  let b' := (successEffect st b).1.2 in
  same_browser b b' /\
  hook_isClient st' = hook_isClient st /\ success st' = success st /\
  data st' = data st /\ isClient st' = isClient st /\
  (localSuccess st = true -> localSuccess st' = true) /\
  (flagged b -> flagged b') /\
  (isClient st = true -> success st = true ->
   localSuccess st' = true /\
   (window_defined b = true ->
    storage_accepts b waitlist_key "true" = true -> flagged b')) /\
  (isClient st = true -> success st = false ->
   b' = b /\
   (localSuccess st' = true <->
    localSuccess st = true \/
    getLocalStorageItem waitlist_key b = Some "true")) /\
  (storage_accepts b waitlist_key "true" = false -> b' = b).
Proof.
  unfold successEffect.
  destruct (isClient st) eqn:Hc; simpl.
  2:{ repeat split; auto; discriminate. }
  destruct (success st) eqn:Hs; simpl.
  - pose proof (setLocalStorageItem_same waitlist_key "true" b) as Hsame.
    unfold setLocalStorageItem, localStorage_setItem in *.
    destruct (window_defined b) eqn:Hw; simpl in *.
    + destruct (storage_accepts b waitlist_key "true") eqn:Ha; simpl in *;
        repeat split; auto; try discriminate; try tauto;
        intros; unfold flagged; simpl; apply lookup_insert_eq.
    + repeat split; auto; try discriminate; try tauto.
  - destruct (getLocalStorageItem waitlist_key b) as [stored|] eqn:Hg; simpl.
    + destruct (String.eqb_spec stored "true") as [->|Hne]; simpl;
        repeat split; auto; try discriminate; try tauto.
      intros [Hx|Hx]; [exact Hx|]. congruence.
    + repeat split; auto; try discriminate; try tauto.
      intros [Hx|Hx]; [exact Hx|discriminate].
Qed.

Lemma onSuccess_spec st b :
  let st' := (onSuccess st b).1.1 in
  let b' := (onSuccess st b).1.2 in
  same_browser b b' /\
  success st' = true /\ isClient st' = isClient st /\
  localSuccess st' = localSuccess st /\
  (flagged b -> flagged b') /\
  (window_defined b = true ->
   storage_accepts b waitlist_key "true" = true -> flagged b') /\
  (storage_accepts b waitlist_key "true" = false -> b' = b).
Proof.
  unfold onSuccess.
  pose proof (setLocalStorageItem_same waitlist_key "true" b) as Hsame.
  unfold setLocalStorageItem, localStorage_setItem in *.
  destruct (window_defined b) eqn:Hw; simpl in *.
  - destruct (storage_accepts b waitlist_key "true") eqn:Ha; simpl in *;
      repeat split; auto; try discriminate;
      intros; unfold flagged; simpl; apply lookup_insert_eq.
  - repeat split; auto; discriminate.
Qed.

Lemma settle_spec r st b :
  let st' := (settle r st b).1.1 in
  let b' := (settle r st b).1.2 in
  same_browser b b' /\
  isClient st' = isClient st /\
  (localSuccess st = true -> localSuccess st' = true) /\
  (success st = true -> success st' = true) /\
  (flagged b -> flagged b') /\
  (storage_accepts b waitlist_key "true" = false -> b' = b) /\
  (joined_ok r = true ->
   success st' = true /\
   (isClient st = true -> (success st = true -> localSuccess st = true) ->
    localSuccess st' = true) /\
   (window_defined b = true ->
    storage_accepts b waitlist_key "true" = true -> flagged b')).
Proof.
  unfold settle, joined_ok.
  destruct (joinWaitlist r) as [e|[]]; simpl.
  { repeat split; auto; discriminate. }
  pose proof (onSuccess_spec st b) as (Hsb & Hs1 & Hc1 & Hl1 & Hf1 & Hw1 & Hr1).
  destruct (onSuccess st b) as [[st1 b1] done] eqn:Hon; simpl in *.
  destruct Hsb as (Ha & Hb & Hc).
  destruct (success st) eqn:Hs; simpl.
  { unfold same_browser. intuition congruence. }
  pose proof (successEffect_spec st1 b1)
    as (Hsb2 & _ & Hs2 & _ & Hc2 & Hl2 & Hf2 & Hyes & _ & Hr2).
  destruct (successEffect st1 b1) as [[st2 b2] logged] eqn:Hse; simpl in *.
  destruct Hsb2 as (Ha2 & Hb2 & Hc2').
  unfold same_browser.
  assert (Hacc : storage_accepts b1 = storage_accepts b) by exact Hc.
  rewrite Hacc in *.
  intuition (try congruence).
  - apply Hl2. congruence.
  - apply Hyes; congruence.
Qed.

Lemma load_spec b :
  isClient (load b).1.1 = true /\ success (load b).1.1 = false /\
  (load b).1.2 = b /\
  (localSuccess (load b).1.1 = true <->
   getLocalStorageItem waitlist_key b = Some "true").
Proof.
  unfold load.
  pose proof (successEffect_spec (mkWaitlist true false None true false) b)
    as (_ & _ & Hs & _ & Hc & _ & _ & _ & Hno & _).
  destruct (Hno eq_refl eq_refl) as [Hb Hiff].
  repeat split; auto.
  - intros H. apply Hiff in H as [H|H]; [discriminate|exact H].
  - intros H. apply Hiff. now right.
Qed.

Lemma visit_step_proj acc r :
  (visit_step acc r).1.1 = (settle r acc.1.1 acc.1.2).1.1 /\
  (visit_step acc r).1.2 = (settle r acc.1.1 acc.1.2).1.2.
Proof.
  destruct acc as [[st b] done]; simpl.
  destruct (settle r st b) as [[st' b'] more]; simpl. auto.
Qed.

(** Kept along a visit in browser [b0]. *)
Lemma visit_keeps b0 rs : forall acc,
  same_browser b0 acc.1.2 -> isClient acc.1.1 = true ->
  (success acc.1.1 = true -> localSuccess acc.1.1 = true) ->
  let acc' := fold_left visit_step rs acc in
  same_browser b0 acc'.1.2 /\ isClient acc'.1.1 = true /\
  (success acc'.1.1 = true -> localSuccess acc'.1.1 = true) /\
  (localSuccess acc.1.1 = true -> localSuccess acc'.1.1 = true) /\
  (flagged acc.1.2 -> flagged acc'.1.2) /\
  (storage_accepts b0 waitlist_key "true" = false -> acc'.1.2 = acc.1.2) /\
  (existsb joined_ok rs = true ->
   localSuccess acc'.1.1 = true /\
   (window_defined b0 = true ->
    storage_accepts b0 waitlist_key "true" = true -> flagged acc'.1.2)).
Proof.
  induction rs as [|r rs IH]; intros acc Hsb Hc Himp; cbn [fold_left].
  { simpl.
    refine (conj Hsb (conj Hc (conj Himp (conj _ (conj _ (conj _ _))))));
      auto. intros H; discriminate. }
  destruct (visit_step_proj acc r) as [Est Eb].
  pose proof (settle_spec r acc.1.1 acc.1.2)
    as (Hsb1 & Hc1 & Hl1 & Hs1 & Hf1 & Hr1 & Hok).
  rewrite <- Est, <- Eb in *.
  assert (Himp1 : success (visit_step acc r).1.1 = true ->
                  localSuccess (visit_step acc r).1.1 = true).
  { intros Hs. destruct (joined_ok r) eqn:Hj.
    - now apply Hok.
    - unfold settle, joined_ok in *. rewrite Est in *.
      destruct (joinWaitlist r); [|discriminate]. simpl in *. auto. }
  destruct (IH (visit_step acc r))
    as (Hsb' & Hc' & Himp' & Hl' & Hf' & Hr' & Hok');
    [eapply same_browser_trans; eauto|congruence|exact Himp1|].
  destruct Hsb as (Ha & Hb & Hacc).
  refine (conj Hsb' (conj Hc' (conj Himp' (conj _ (conj _ (conj _ _)))))).
  - auto.
  - auto.
  - intros H. rewrite (Hr' H). apply Hr1. congruence.
  - intros H. simpl in H. apply orb_true_iff in H as [H|H].
    + destruct (Hok H) as (Hs & Hl & Hfl). split.
      * apply Hl'. apply Hl; auto.
      * intros Hw Hac. apply Hf'. apply Hfl; congruence.
    + now apply Hok'.
Qed.

Lemma view_welcome st :
  isClient st = true -> localSuccess st = true -> view st = Welcome.
Proof. unfold view. now intros -> ->. Qed.

(** X16.  The welcome survives a reload.  In a browser whose storage works,
    once a join has gone through during a visit, the welcome message is
    shown for the rest of that visit, whatever later attempts give, and on
    every later visit in that browser (a reload starts from the stored
    flag). *)
Theorem welcome_survives_reload b rs rs' :
  window_defined b = true -> storage_readable b = true ->
  storage_accepts b waitlist_key "true" = true ->
  existsb joined_ok rs = true ->
  view (visit b rs).1.1 = Welcome /\
  view (visit (visit b rs).1.2 rs').1.1 = Welcome.
Proof.
  intros Hw Hr Ha Hex. rewrite !visit_fold.
  destruct (load_spec b) as (Hc0 & Hs0 & Hb0 & _).
  destruct (visit_keeps b rs (load b))
    as (Hsb & Hc & _ & _ & _ & _ & Hok);
    [rewrite Hb0; apply same_browser_refl|exact Hc0|
     rewrite Hs0; discriminate|].
  destruct (Hok Hex) as [Hl Hfl]. specialize (Hfl Hw Ha).
  split; [now apply view_welcome|].
  set (b1 := (fold_left visit_step rs (load b)).1.2) in *.
  destruct Hsb as (Hw1 & Hr1 & Ha1).
  destruct (load_spec b1) as (Hc1 & Hs1 & Hb1 & Hiff).
  assert (Hl1 : localSuccess (load b1).1.1 = true).
  { apply Hiff. unfold getLocalStorageItem, localStorage_getItem.
    rewrite Hw1, Hw, Hr1, Hr. exact Hfl. }
  destruct (visit_keeps b1 rs' (load b1))
    as (_ & Hc' & _ & Hl' & _);
    [rewrite Hb1; apply same_browser_refl|exact Hc1|
     rewrite Hs1; discriminate|].
  apply view_welcome; [exact Hc'|now apply Hl'].
Qed.

(** X17.  Where storage refuses the write (private mode, quota), a join that
    goes through still shows the welcome message for the rest of the visit,
    but nothing is stored: the browser is left as it was, and unless the
    flag was there before, a reload shows the form again. *)
Theorem refused_storage_forgets b rs :
  window_defined b = true ->
  storage_accepts b waitlist_key "true" = false ->
  (visit b rs).1.2 = b /\
  (existsb joined_ok rs = true -> view (visit b rs).1.1 = Welcome) /\
  (getLocalStorageItem waitlist_key b <> Some "true" ->
   view (load (visit b rs).1.2).1.1 = Form).
Proof.
  intros Hw Ha. rewrite !visit_fold.
  destruct (load_spec b) as (Hc0 & Hs0 & Hb0 & Hiff).
  destruct (visit_keeps b rs (load b))
    as (_ & Hc & _ & _ & _ & Hsame & Hok);
    [rewrite Hb0; apply same_browser_refl|exact Hc0|
     rewrite Hs0; discriminate|].
  assert (Hb : (fold_left visit_step rs (load b)).1.2 = b)
    by (rewrite (Hsame Ha); exact Hb0).
  split; [exact Hb|]. split.
  - intros Hex. apply view_welcome; [exact Hc|now apply Hok].
  - intros Hno. rewrite Hb. unfold view. rewrite Hc0; simpl.
    destruct (localSuccess (load b).1.1) eqn:Hl; [|reflexivity].
    exfalso. apply Hno, Hiff. reflexivity.
Qed.

(** * The team routes *)

(** X18.  A handler that does not answer 200 has not written: whenever
    [create], [leave] or [add-members] replies with another status (401,
    400, 404), the database is exactly as it was. *)
Theorem errors_never_write lib c db :
  (code (create lib c db).1 <> 200 -> (create lib c db).2 = db) /\
  (code (leave c db).1 <> 200 -> (leave c db).2 = db) /\
  (code (add_members lib c db).1 <> 200 -> (add_members lib c db).2 = db).
Proof.
  unfold create, leave, add_members, not_registered_reply, message_reply.
  repeat split; repeat case_match; simpl; try reflexivity;
    intros Hne; exfalso; apply Hne; reflexivity.
Qed.

(** X19.  [add-members] checks neither that the team exists nor that the
    caller has anything to do with it: the reply and the rows written are
    the same whoever the signed-in caller is and whatever the [teams] table
    holds. *)
Theorem add_members_ignores_caller lib c db uid ts :
  unauthorized c = false -> uid <> "" ->
  add_members lib (as_user uid c) (with_teams ts db) =
  ((add_members lib c db).1, with_teams ts (add_members lib c db).2).
Proof.
  intros Hc Hu. unfold unauthorized in Hc. unfold add_members, as_user; simpl.
  destruct (auth c) as [caller|]; [|discriminate]. rewrite Hc.
  apply String.eqb_neq in Hu. rewrite Hu.
  unfold users_with_email; simpl.
  repeat case_match; reflexivity.
Qed.

Lemma filter_nil_iff {A} (P : A -> Prop) `{!forall x, Decision (P x)} (l : list A) :
  filter P l = [] <-> forall x, x ∈ l -> ~ P x.
Proof.
  split.
  - intros Hnil x Hx HP. now apply (filter_nil_not_elem_of P l x).
  - intros Hall. induction l as [|a l IH]; [reflexivity|].
    rewrite filter_cons_False by (apply Hall; left).
    apply IH. intros x Hx. apply Hall. now right.
Qed.

(** X20.  Leaving a team.  A signed-in user who is not a member of the team
    gets 404 and nothing changes.  A member gets 200, is no member of that
    team afterwards, and nothing else is touched: every other membership
    (other users, other teams) is as before, and so are the tables of users
    and of teams; the team itself stays, even when its creator or its last
    member leaves. *)
Theorem leave_removes_membership c db uid :
  auth c = Some uid -> uid <> "" -> teamId_param c <> "" ->
  let tid := teamId_param c in
  let db' := (leave c db).2 in
  (membership db tid uid = [] ->
   leave c db = (message_reply "You are not a member of this team" 404, db)) /\
  (membership db tid uid <> [] ->
   code (leave c db).1 = 200 /\
   membership db' tid uid = [] /\
   users db' = users db /\ teams db' = teams db /\
   forall t u, (t, u) <> (tid, uid) ->
     membership db' t u = membership db t u).
Proof.
  intros Ha Hu Ht tid db'. subst db'. unfold leave. rewrite Ha.
  apply String.eqb_neq in Hu, Ht. rewrite Hu, Ht. fold tid.
  split.
  - intros Hm. now rewrite Hm.
  - intros Hm. destruct (membership db tid uid) eqn:Hmem; [contradiction|].
    simpl. split; [reflexivity|]. split; [|split; [reflexivity|split; [reflexivity|]]].
    + unfold membership; simpl. apply filter_nil_iff.
      intros x Hx. apply list_elem_of_filter in Hx as [Hx _]. exact Hx.
    + intros t u Hne. unfold membership; simpl.
      apply list_filter_filter_l. intros x [Hx1 Hx2] [Hy1 Hy2].
      apply Hne. congruence.
Qed.

Lemma users_with_email_same db db' emails :
  users db' = users db -> users_with_email db' emails = users_with_email db emails.
Proof. unfold users_with_email. now intros ->. Qed.

(** The shape of a successful [add-members]. *)
Lemma add_members_ok lib c db :
  code (add_members lib c db).1 = 200 ->
  exists uid b,
    auth c = Some uid /\ String.eqb uid "" = false /\
    String.eqb (teamId_param c) "" = false /\
    json_body c = Some b /\ add_issues lib b = [] /\
    let tid := teamId_param c in
    let found := users_with_email db (add_emails b) in
    let userIds := u_id <$> found in
    let already :=
      m_userId <$> filter (fun m => m_teamId m = tid /\ m_userId m ∈ userIds)
                          (teamMembers db) in
    let new := filter (fun id => id ∉ already) userIds in
    length found = length (add_emails b) /\ new <> [] /\
    add_members lib c db =
    (message_reply "Users added to team" 200,
     mkDB (users db) (teams db)
          (teamMembers db ++
           ((fun id => mkMemberRow tid id (dates c 0)) <$> new))).
Proof.
  unfold add_members, not_registered_reply, message_reply.
  destruct (auth c) as [uid|]; [|discriminate].
  destruct (String.eqb uid "") eqn:Hu; [discriminate|].
  destruct (String.eqb (teamId_param c) "") eqn:Ht; [discriminate|].
  destruct (json_body c) as [b|]; [|discriminate].
  destruct (add_issues lib b) eqn:Hi; [|discriminate].
  case_bool_decide as Hlen; simpl; [|discriminate].
  match goal with
  | |- context [match ?l with [] => _ | _ :: _ => _ end] =>
      destruct l eqn:Hnew
  end; [discriminate|].
  intros _. exists uid, b. repeat split; auto.
  - simpl. rewrite Hnew. discriminate.
  - now rewrite Hnew.
Qed.

(** X21.  [add-members] is idempotent in effect: sending again a request
    that has just succeeded is refused with "All users are already members
    of this team" and changes nothing. *)
Theorem add_members_twice lib c db :
  code (add_members lib c db).1 = 200 ->
  add_members lib c (add_members lib c db).2 =
  (message_reply "All users are already members of this team" 400,
   (add_members lib c db).2).
Proof.
  intros Hok.
  destruct (add_members_ok lib c db Hok)
    as (uid & b & Ha & Hu & Ht & Hb & Hi & Hlen & Hnew & ->).
  simpl. unfold add_members at 1. rewrite Ha, Hu, Ht, Hb, Hi.
  cbn zeta.
  rewrite (users_with_email_same db _ (add_emails b)) by reflexivity.
  rewrite bool_decide_eq_true_2 by exact Hlen. cbn [negb teamMembers].
  set (tid := teamId_param c).
  set (userIds := u_id <$> users_with_email db (add_emails b)).
  set (inTeam := fun m => m_teamId m = tid /\ m_userId m ∈ userIds).
  set (already := m_userId <$> filter inTeam (teamMembers db)).
  set (new := filter (fun id => id ∉ already) userIds) in *.
  set (rows := (fun id => mkMemberRow tid id (dates c 0)) <$> new).
  assert (Hall : filter (fun id => id ∉ m_userId <$>
                           filter inTeam (teamMembers db ++ rows)) userIds = []).
  { apply filter_nil_iff. intros id Hid Hnot. apply Hnot.
    rewrite filter_app, fmap_app, elem_of_app.
    destruct (decide (id ∈ already)) as [Hin|Hout]; [now left|right].
    apply list_elem_of_fmap.
    exists (mkMemberRow tid id (dates c 0)). split; [reflexivity|].
    apply list_elem_of_filter. split; [split; [reflexivity|exact Hid]|].
    apply list_elem_of_fmap. exists id. split; [reflexivity|].
    apply list_elem_of_filter. auto. }
  now rewrite Hall.
Qed.

Lemma create_unchanged lib c db :
  code (create lib c db).1 <> 200 -> (create lib c db).2 = db.
Proof.
  unfold create, not_registered_reply, message_reply.
  repeat case_match; simpl; try reflexivity;
    intros Hne; exfalso; apply Hne; reflexivity.
Qed.

Lemma leave_unchanged c db :
  code (leave c db).1 <> 200 -> (leave c db).2 = db.
Proof.
  unfold leave, message_reply.
  repeat case_match; simpl; try reflexivity;
    intros Hne; exfalso; apply Hne; reflexivity.
Qed.

Lemma add_members_unchanged lib c db :
  code (add_members lib c db).1 <> 200 -> (add_members lib c db).2 = db.
Proof.
  unfold add_members, not_registered_reply, message_reply.
  repeat case_match; simpl; try reflexivity;
    intros Hne; exfalso; apply Hne; reflexivity.
Qed.

(** The shape of a successful [create]. *)
Lemma create_ok lib c db :
  code (create lib c db).1 = 200 ->
  exists uid b,
    auth c = Some uid /\ String.eqb uid "" = false /\
    json_body c = Some b /\ create_issues lib b = [] /\
    (forall e es, create_members b = Some (e :: es) ->
       length (users_with_email db (e :: es)) = length (e :: es)) /\
    create lib c db =
    (message_reply "Team created" 200,
     mkDB (users db)
          (teams db ++
           [mkTeamRow (fresh_id c) (create_name b) uid (dates c 0)])
          (teamMembers db ++
           imap (fun k id => mkMemberRow (fresh_id c) id (dates c (S k)))
                (with_creator uid (u_id <$> requested_users db b)))).
Proof.
  unfold create, not_registered_reply, message_reply, requested_users,
    with_creator.
  destruct (auth c) as [uid|]; [|discriminate].
  destruct (String.eqb uid "") eqn:Hu; [discriminate|].
  destruct (json_body c) as [b|]; [|discriminate].
  destruct (create_issues lib b) eqn:Hi; [|discriminate].
  destruct (create_members b) as [[|e es]|] eqn:Hm.
  - intros _. exists uid, b.
    do 4 (split; [first [reflexivity|assumption]|]).
    split; [intros e es; congruence|].
    first [reflexivity|rewrite Hm; reflexivity].
  - case_bool_decide as Hlen; [|discriminate].
    intros _. exists uid, b.
    do 4 (split; [first [reflexivity|assumption]|]).
    split; [intros e' es' He; first [injection He as -> ->|rewrite Hm in He; injection He as -> ->]; exact Hlen|].
    first [reflexivity|rewrite Hm; reflexivity].
  - intros _. exists uid, b.
    do 4 (split; [first [reflexivity|assumption]|]).
    split; [intros e es; congruence|].
    first [reflexivity|rewrite Hm; reflexivity].
Qed.

Lemma fmap_imap_const {A B C} (f : nat -> A -> B) (g : B -> C) (h : A -> C)
    (l : list A) :
  (forall k a, g (f k a) = h a) -> g <$> imap f l = h <$> l.
Proof.
  intros Hgf. revert f Hgf. induction l as [|a l IH]; intros f Hgf;
    [reflexivity|].
  simpl. rewrite Hgf. f_equal. apply IH. intros k x. apply Hgf.
Qed.

Lemma found_ids_NoDup db emails :
  NoDup (u_id <$> users db) -> NoDup (u_id <$> users_with_email db emails).
Proof.
  intros Hn. eapply sublist_NoDup; [exact Hn|].
  apply fmap_sublist, sublist_filter.
Qed.

Lemma with_creator_NoDup uid ids : NoDup ids -> NoDup (with_creator uid ids).
Proof.
  intros Hn. unfold with_creator. case_bool_decide as Hin; [exact Hn|].
  apply NoDup_app. repeat split; [exact Hn| |apply NoDup_singleton].
  intros x Hx Hx'. apply list_elem_of_singleton in Hx'. congruence.
Qed.

Lemma requested_ids_NoDup db b :
  NoDup (u_id <$> users db) -> NoDup (u_id <$> requested_users db b).
Proof.
  intros Hn. unfold requested_users.
  destruct (create_members b) as [[|e es]|]; try apply NoDup_nil_2.
  now apply found_ids_NoDup.
Qed.

(** X22.  No handler makes a user a member of the same team twice.  If user
    identifiers are unique and no (team, user) pair occurs twice in
    [teamMembers], this is still so after [leave], after [add-members], and
    after [create] when the identifier of the new team is not already used
    by a membership. *)
Theorem members_stay_unique lib c db :
  NoDup (u_id <$> users db) -> unique_members db ->
  unique_members (leave c db).2 /\
  unique_members (add_members lib c db).2 /\
  (fresh_id c ∉ m_teamId <$> teamMembers db ->
   unique_members (create lib c db).2).
Proof.
  intros Hids Huniq. split; [|split].
  - destruct (decide (code (leave c db).1 = 200)) as [Hok|Hne];
      [|now rewrite leave_unchanged].
    revert Hok. unfold leave, message_reply.
    repeat case_match; simpl; try discriminate. intros _.
    unfold unique_members; simpl.
    eapply sublist_NoDup; [exact Huniq|].
    apply fmap_sublist, sublist_filter.
  - destruct (decide (code (add_members lib c db).1 = 200)) as [Hok|Hne];
      [|now rewrite add_members_unchanged].
    destruct (add_members_ok lib c db Hok)
      as (uid & b & _ & _ & _ & _ & _ & _ & _ & ->).
    unfold unique_members; simpl. rewrite fmap_app.
    apply NoDup_app. split; [exact Huniq|]. split.
    + intros [t u] Hold Hnew.
      apply list_elem_of_fmap in Hnew as (m & Hm & Hin).
      apply list_elem_of_fmap in Hin as (id & -> & Hid).
      simpl in Hm. injection Hm as -> ->.
      apply list_elem_of_filter in Hid as [Hnot Hid]. apply Hnot.
      apply list_elem_of_fmap in Hold as (m & Hm & Hin).
      injection Hm as Ht Hu.
      apply list_elem_of_fmap. exists m. split; [exact Hu|].
      apply list_elem_of_filter. split; [|exact Hin].
      split; [now symmetry|]. now rewrite <- Hu.
    + rewrite <- list_fmap_compose.
      apply NoDup_fmap_2_strong.
      * intros x y _ _ [= ->]. reflexivity.
      * apply NoDup_filter. now apply found_ids_NoDup.
  - intros Hfresh.
    destruct (decide (code (create lib c db).1 = 200)) as [Hok|Hne];
      [|now rewrite create_unchanged].
    destruct (create_ok lib c db Hok) as (uid & b & _ & _ & _ & _ & _ & ->).
    unfold unique_members; simpl. rewrite fmap_app.
    rewrite (fmap_imap_const _ member_pair (fun id => (fresh_id c, id)))
      by reflexivity.
    apply NoDup_app. split; [exact Huniq|]. split.
    + intros [t u] Hold Hnew.
      apply list_elem_of_fmap in Hnew as (id & [= -> ->] & _).
      apply Hfresh.
      apply list_elem_of_fmap in Hold as (m & [= Ht Hu] & Hin).
      apply list_elem_of_fmap. exists m. split; [exact Ht|exact Hin].
    + apply NoDup_fmap_2_strong.
      * intros x y _ _ [= ->]. reflexivity.
      * apply with_creator_NoDup. now apply requested_ids_NoDup.
Qed.

Lemma remove_dups_length {A} `{EqDecision A} (l : list A) :
  (length (remove_dups l) <= length l)%nat /\
  (length (remove_dups l) = length l -> NoDup l).
Proof.
  induction l as [|x l [IH1 IH2]]; simpl; [split; [lia|constructor]|].
  destruct (decide_rel elem_of x l) as [Hin|Hout]; simpl; split; try lia.
  constructor; [exact Hout|]. apply IH2. lia.
Qed.

Lemma found_emails db ms e :
  e ∈ u_email <$> users_with_email db ms <-> e ∈ ms /\ registered db e.
Proof.
  unfold users_with_email, registered. rewrite !list_elem_of_fmap. split.
  - intros (u & -> & Hu). apply list_elem_of_filter in Hu as [Hm Hu].
    split; [exact Hm|]. now exists u.
  - intros (Hm & u & -> & Hu). exists u. split; [reflexivity|].
    apply list_elem_of_filter. auto.
Qed.

Lemma found_emails_NoDup db ms :
  NoDup (u_email <$> users db) -> NoDup (u_email <$> users_with_email db ms).
Proof.
  intros Hn. eapply sublist_NoDup; [exact Hn|].
  apply fmap_sublist, sublist_filter.
Qed.

(** The test [users.length !== emails.length] is exact when e-mail
    addresses are unique on both sides. *)
Lemma length_check_exact db ms :
  NoDup (u_email <$> users db) -> NoDup ms ->
  (length (users_with_email db ms) = length ms <->
   forall e, e ∈ ms -> registered db e).
Proof.
  intros Hdb Hms.
  pose proof (found_emails_NoDup db ms Hdb) as HF.
  assert (Hsub : (u_email <$> users_with_email db ms) ⊆+ ms).
  { apply NoDup_submseteq; [exact HF|].
    intros e He. now apply found_emails in He as [He _]. }
  rewrite <- (length_fmap u_email). split.
  - intros Hlen e He.
    assert (Hp : (u_email <$> users_with_email db ms) ≡ₚ ms)
      by (apply submseteq_length_Permutation; [exact Hsub|lia]).
    rewrite <- Hp in He. now apply found_emails in He as [_ He].
  - intros Hall.
    assert (Hsub' : ms ⊆+ (u_email <$> users_with_email db ms)).
    { apply NoDup_submseteq; [exact Hms|].
      intros e He. apply found_emails. auto. }
    apply submseteq_length in Hsub, Hsub'. lia.
Qed.

(** With a repeated address the test fails, whatever is registered. *)
Lemma length_check_dup db ms :
  NoDup (u_email <$> users db) -> ~ NoDup ms ->
  length (users_with_email db ms) <> length ms.
Proof.
  intros Hdb Hms.
  pose proof (found_emails_NoDup db ms Hdb) as HF.
  assert (Hsub : (u_email <$> users_with_email db ms) ⊆+ remove_dups ms).
  { apply NoDup_submseteq; [exact HF|].
    intros e He. apply elem_of_remove_dups.
    now apply found_emails in He as [He _]. }
  apply submseteq_length in Hsub. rewrite length_fmap in Hsub.
  destruct (remove_dups_length ms) as [Hle Heq].
  intros Hlen. apply Hms, Heq. lia.
Qed.

Lemma not_registered_nil db ms :
  (forall e, e ∈ ms -> registered db e) ->
  not_registered (users_with_email db ms) ms = [].
Proof.
  intros Hall. unfold not_registered. apply filter_nil_iff.
  intros e He Hnot. apply Hnot. apply found_emails. auto.
Qed.

(** X23.  Who is in a new team.  When [create] answers 200, the users table
    is untouched, one team is appended with the fresh identifier, the name
    of the body and the caller as creator, and the memberships appended are
    all for that team: one for each registered user whose address was given,
    and one for the caller, who is added if not among them; so the creator
    is always a member, and with unique user identifiers nobody is a member
    twice. *)
Theorem create_makes_team lib c db :
  code (create lib c db).1 = 200 ->
  exists uid b rows,
    auth c = Some uid /\ uid <> "" /\ json_body c = Some b /\
    let db' := (create lib c db).2 in
    users db' = users db /\
    teams db' = teams db ++
      [mkTeamRow (fresh_id c) (create_name b) uid (dates c 0)] /\
    teamMembers db' = teamMembers db ++ rows /\
    Forall (fun m => m_teamId m = fresh_id c) rows /\
    m_userId <$> rows = with_creator uid (u_id <$> requested_users db b) /\
    uid ∈ m_userId <$> rows /\
    (NoDup (u_id <$> users db) -> NoDup (m_userId <$> rows)).
Proof.
  intros Hok.
  destruct (create_ok lib c db Hok) as (uid & b & Ha & Hu & Hb & _ & _ & ->).
  exists uid, b,
    (imap (fun k id => mkMemberRow (fresh_id c) id (dates c (S k)))
          (with_creator uid (u_id <$> requested_users db b))).
  assert (Hids : m_userId <$>
            imap (fun k id => mkMemberRow (fresh_id c) id (dates c (S k)))
                 (with_creator uid (u_id <$> requested_users db b)) =
            with_creator uid (u_id <$> requested_users db b)).
  { rewrite (fmap_imap_const _ m_userId (fun id => id)) by reflexivity.
    apply list_fmap_id. }
  split; [exact Ha|]. split; [now apply String.eqb_neq|].
  split; [exact Hb|]. simpl.
  split; [reflexivity|]. split; [reflexivity|]. split; [reflexivity|].
  split; [|split; [exact Hids|split]].
  - apply Forall_forall. intros m Hm.
    apply elem_of_lookup_imap in Hm as (k & id & -> & _). reflexivity.
  - rewrite Hids. unfold with_creator. case_bool_decide as Hin; [exact Hin|].
    apply elem_of_app. right. now apply list_elem_of_singleton.
  - intros Hn. rewrite Hids. apply with_creator_NoDup.
    now apply requested_ids_NoDup.
Qed.

(** X24.  Whom [create] accepts.  With e-mail addresses unique among the
    users and in the request, a request with a valid body and a non-empty
    [members] list is answered 200 exactly when every address of the list
    is registered. *)
Theorem create_accepts_registered lib c db uid b ms :
  auth c = Some uid -> uid <> "" -> json_body c = Some b ->
  create_issues lib b = [] -> create_members b = Some ms -> ms <> [] ->
  NoDup (u_email <$> users db) -> NoDup ms ->
  (code (create lib c db).1 = 200 <-> forall e, e ∈ ms -> registered db e).
Proof.
  intros Ha Hu Hb Hi Hm Hne Hdb Hms.
  rewrite <- (length_check_exact db ms Hdb Hms).
  unfold create. rewrite Ha, Hb, Hi, Hm.
  apply String.eqb_neq in Hu. rewrite Hu.
  destruct ms as [|e es]; [contradiction|].
  case_bool_decide as Hlen; simpl; split; intros Hx;
    first [exact Hlen | reflexivity | discriminate | contradiction].
Qed.

(** X25.  A repeated address is refused, with a message that may name
    nobody.  With e-mail addresses unique among the users, an [add-members]
    request whose list names the same address twice is answered 400 and
    changes nothing, even when every address is registered; in that case
    the message is "Email(s) not registered: " followed by no address. *)
Theorem add_members_repeated_address lib c db uid b :
  auth c = Some uid -> uid <> "" -> teamId_param c <> "" ->
  json_body c = Some b -> add_issues lib b = [] ->
  NoDup (u_email <$> users db) -> ~ NoDup (add_emails b) ->
  add_members lib c db =
    (not_registered_reply (users_with_email db (add_emails b)) (add_emails b),
     db) /\
  ((forall e, e ∈ add_emails b -> registered db e) ->
   add_members lib c db =
     (message_reply "Email(s) not registered: " 400, db)).
Proof.
  intros Ha Hu Ht Hb Hi Hdb Hdup.
  assert (Hfirst : add_members lib c db =
            (not_registered_reply (users_with_email db (add_emails b))
                                  (add_emails b), db)).
  { unfold add_members. rewrite Ha, Hb, Hi.
    apply String.eqb_neq in Hu, Ht. rewrite Hu, Ht.
    rewrite bool_decide_eq_false_2 by now apply length_check_dup.
    reflexivity. }
  split; [exact Hfirst|].
  intros Hall. rewrite Hfirst. unfold not_registered_reply.
  now rewrite not_registered_nil.
Qed.







#[local] Instance newest_first_trans : Transitive newest_first.
Proof. intros a b c. unfold newest_first. lia. Qed.

#[local] Instance newest_first_total : Total newest_first.
Proof. intros a b. unfold newest_first. lia. Qed.












(** * Instances on the sample values *)

Lemma sample_users_unique : NoDup (u_id <$> users sample_db).
Proof. apply (bool_decide_unpack _). exact I. Qed.

Lemma sample_emails_unique : NoDup (u_email <$> users sample_db).
Proof. apply (bool_decide_unpack _). exact I. Qed.

Lemma sample_members_unique : unique_members sample_db.
Proof. apply (bool_decide_unpack _). exact I. Qed.

Lemma sample_fresh : fresh_id create_request ∉ m_teamId <$> teamMembers sample_db.
Proof. apply (bool_decide_unpack _). exact I. Qed.

Lemma bob_twice_repeats : ~ NoDup (add_emails bob_twice_body).
Proof. apply (bool_decide_unpack _). exact I. Qed.

Lemma requests_well_formed_witness :
  req_call (poll "abc123") <> "" /\
  match req_endpoint (poll "abc123") with
  | RequestJoin =>
      req_method (poll "abc123") = POST /\
      req_json_header (poll "abc123") = true
  | Creator | CheckAccess =>
      req_method (poll "abc123") = GET /\
      req_json_header (poll "abc123") = false
  end.
Proof.
  apply (requests_well_formed call_abc alice 0 [] 0 (poll "abc123")).
  right; left; reflexivity.
Defined.

Lemma inert_without_call_witness :
  log (run (mount no_call alice 0)
           [EvSetUser guest_user; EvWait 5000; EvRequestAccess]) = [] /\
  inflight (run (mount no_call alice 0)
                [EvSetUser guest_user; EvWait 5000; EvRequestAccess]) = [] /\
  timers (run (mount no_call alice 0)
              [EvSetUser guest_user; EvWait 5000; EvRequestAccess]) = ∅.
Proof.
  destruct (inert_without_call no_call alice 0
              [EvSetUser guest_user; EvWait 5000; EvRequestAccess]
              eq_refl eq_refl) as (H1 & H2 & H3 & _).
  split; [exact H1|]. split; [exact H2|exact H3].
Defined.

Lemma handleRequestAccess_success_witness :
  performed (exec (after_fetch (handleRequestAccess call_abc alice)
                               (Responded accepted)) alice_world) =
  performed alice_world ++
  [ToastSuccess "Request sent! Please wait for the host to approve.";
   Dispatch (SET_REQUESTING_ACCESS false)].
Proof.
  exact (handleRequestAccess_success call_abc alice "abc123" accepted
           alice_world eq_refl eq_refl eq_refl).
Defined.

Lemma handleRequestAccess_caught_witness :
  performed (exec (after_fetch (handleRequestAccess call_abc alice)
                               (Rejected "offline")) alice_world) =
  performed alice_world ++
  [ConsoleError "Error requesting access:" (FetchRejected "offline");
   ToastError default_error;
   Dispatch (SET_REQUESTING_ACCESS false)].
Proof.
  exact (handleRequestAccess_caught call_abc alice "abc123"
           (Rejected "offline") alice_world eq_refl eq_refl
           (FetchRejected "offline") eq_refl).
Defined.

Lemma overlapping_requests_witness :
  map fst (inflight (run alice_world [EvRequestAccess; EvRequestAccess])) =
    map fst (inflight alice_world) ++
    [join_request "abc123"; join_request "abc123"] /\
  isRequestingAccess
    (session (run alice_world [EvRequestAccess; EvRequestAccess])) = true /\
  map fst (inflight (step (run alice_world [EvRequestAccess; EvRequestAccess])
                          (EvDeliver (length (inflight alice_world))
                                     (Responded accepted)))) =
    map fst (inflight alice_world) ++ [join_request "abc123"] /\
  isRequestingAccess
    (session (step (run alice_world [EvRequestAccess; EvRequestAccess])
                   (EvDeliver (length (inflight alice_world))
                              (Responded accepted)))) = false.
Proof.
  exact (overlapping_requests alice_world "abc123" (Responded accepted)
           eq_refl eq_refl).
Defined.

Lemma sign_in_starts_polling_witness :
  polls (step (run (mount call_abc guest_user 0) [EvWait 5000])
              (EvSetUser alice)) =
    polls (run (mount call_abc guest_user 0) [EvWait 5000]) ++
    [(now (run (mount call_abc guest_user 0) [EvWait 5000]), poll "abc123")] /\
  timers (step (run (mount call_abc guest_user 0) [EvWait 5000])
               (EvSetUser alice)) =
    {[ next_timer (run (mount call_abc guest_user 0) [EvWait 5000]) :=
         mkTimer 3000
           (now (run (mount call_abc guest_user 0) [EvWait 5000]) + 3000)
           (checkAccess "abc123") ]} /\
  session (step (run (mount call_abc guest_user 0) [EvWait 5000])
                (EvSetUser alice)) =
    session (run (mount call_abc guest_user 0) [EvWait 5000]).
Proof.
  exact (sign_in_starts_polling call_abc guest_user 0 [EvWait 5000] "abc123"
           alice eq_refl eq_refl eq_refl eq_refl).
Defined.

Lemma sign_out_stops_polling_witness :
  timers (step (run (mount call_abc alice 0) [EvTick 1])
               (EvSetUser guest_user)) = ∅ /\
  requests (step (run (mount call_abc alice 0) [EvTick 1])
                 (EvSetUser guest_user)) =
    requests (run (mount call_abc alice 0) [EvTick 1]) /\
  hasAccess (session (step (run (mount call_abc alice 0) [EvTick 1])
                           (EvSetUser guest_user))) = JBool true /\
  isCreator (session (step (run (mount call_abc alice 0) [EvTick 1])
                           (EvSetUser guest_user))) = JBool false.
Proof.
  exact (sign_out_stops_polling call_abc alice 0 [EvTick 1] "abc123"
           guest_user eq_refl eq_refl eq_refl eq_refl).
Defined.

Lemma new_call_restarts_witness :
  requests (step (run (mount call_abc alice 0) [])
                 (EvSetCallId (Some "xyz789"))) =
    requests (run (mount call_abc alice 0) []) ++
    [(now (run (mount call_abc alice 0) []), creator_request "xyz789");
     (now (run (mount call_abc alice 0) []), poll "xyz789")] /\
  map fst (inflight (step (run (mount call_abc alice 0) [])
                          (EvSetCallId (Some "xyz789")))) =
    map fst (inflight (run (mount call_abc alice 0) [])) ++
    [creator_request "xyz789"; poll "xyz789"] /\
  timers (step (run (mount call_abc alice 0) [])
               (EvSetCallId (Some "xyz789"))) =
    {[ next_timer (run (mount call_abc alice 0) []) :=
         mkTimer 3000 (now (run (mount call_abc alice 0) []) + 3000)
                 (checkAccess "xyz789") ]}.
Proof.
  apply (new_call_restarts call_abc alice 0 [] "xyz789");
    [discriminate|discriminate|reflexivity|reflexivity].
Defined.

Lemma late_answer_is_applied_witness :
  hasAccess
    (session (step (run (mount call_abc alice 0) [EvSetJoined true])
                   (EvDeliver 1 (Responded granted)))) = JBool true /\
  joined
    (session (step (run (mount call_abc alice 0) [EvSetJoined true])
                   (EvDeliver 1 (Responded granted)))) = true.
Proof.
  epose proof (late_answer_is_applied call_abc alice 0 [EvSetJoined true] 1
                 "abc123" _ granted [("hasAccess", JBool true)]
                 eq_refl eq_refl eq_refl) as (H1 & _ & _ & H4 & _).
  split; [exact H1|exact H4].
Defined.

Lemma creator_fetched_once_witness :
  creator_fetches
    (run (mount call_abc alice 0)
         [EvSetJoined true; EvSetUser guest_user; EvSetJoined false;
          EvSetUser alice]) =
  match call_of call_abc with
  | Some c => [(0, creator_request c)]
  | None => []
  end.
Proof.
  exact (creator_fetched_once call_abc alice 0
           [EvSetJoined true; EvSetUser guest_user; EvSetJoined false;
            EvSetUser alice] eq_refl).
Defined.

Lemma generateRoomId_shape_witness :
  String.length (generateRoomId (fun i => (5 * i)%nat)) = 8%nat /\
  Forall (fun a => In a (list_ascii_of_string characters))
         (list_ascii_of_string (generateRoomId (fun i => (5 * i)%nat))) /\
  generateRoomId (fun i => (5 * i)%nat) <> "".
Proof.
  apply (generateRoomId_shape (fun i => (5 * i)%nat)).
  intros i Hi. simpl. lia.
Defined.

Lemma storage_round_trip_witness :
  getLocalStorageItem waitlist_key
    (setLocalStorageItem waitlist_key "true" open_browser).1 = Some "true" /\
  (setLocalStorageItem waitlist_key "true" private_browser).2 =
    [LogError "Failed to set localStorage item" waitlist_key "true"].
Proof.
  split.
  - exact (proj1 (proj2 (proj2
             (storage_round_trip waitlist_key "true" open_browser eq_refl)))).
  - exact (proj2 (proj2
             (storage_round_trip waitlist_key "true" private_browser eq_refl))).
Defined.

Lemma join_failure_is_shown_witness :
  settle (Responded already_requested) fresh_form open_browser =
  (fresh_form, open_browser, [WToastError (Text "Already requested")]).
Proof.
  exact (join_failure_is_shown already_requested fresh_form open_browser
           eq_refl).
Defined.


Lemma welcome_survives_reload_witness :
  view (visit open_browser
              [Responded already_requested; Responded accepted]).1.1 =
    Welcome /\
  view (visit (visit open_browser
                     [Responded already_requested; Responded accepted]).1.2
              [server_error]).1.1 = Welcome.
Proof.
  exact (welcome_survives_reload open_browser
           [Responded already_requested; Responded accepted] [server_error]
           eq_refl eq_refl eq_refl eq_refl).
Defined.

Lemma refused_storage_forgets_witness :
  (visit private_browser [Responded accepted]).1.2 = private_browser /\
  view (visit private_browser [Responded accepted]).1.1 = Welcome /\
  view (load (visit private_browser [Responded accepted]).1.2).1.1 = Form.
Proof.
  destruct (refused_storage_forgets private_browser [Responded accepted]
              eq_refl eq_refl) as (H1 & H2 & H3).
  split; [exact H1|]. split; [exact (H2 eq_refl)|].
  apply H3. discriminate.
Defined.

Lemma errors_never_write_witness :
  (create sample_lib stranger_request sample_db).2 = sample_db /\
  (leave (as_user "u2" leave_request) sample_db).2 = sample_db /\
  (add_members sample_lib stranger_request sample_db).2 = sample_db.
Proof.
  split; [|split].
  - apply (proj1 (errors_never_write sample_lib stranger_request sample_db)).
    discriminate.
  - apply (proj1 (proj2 (errors_never_write sample_lib
                           (as_user "u2" leave_request) sample_db))).
    discriminate.
  - apply (proj2 (proj2 (errors_never_write sample_lib stranger_request
                           sample_db))).
    discriminate.
Defined.

Lemma add_members_ignores_caller_witness :
  add_members sample_lib (as_user "u2" add_request) (with_teams [] sample_db) =
  ((add_members sample_lib add_request sample_db).1,
   with_teams [] (add_members sample_lib add_request sample_db).2).
Proof.
  apply (add_members_ignores_caller sample_lib add_request sample_db "u2" []);
    [reflexivity|discriminate].
Defined.

Lemma leave_removes_membership_witness :
  code (leave leave_request sample_db).1 = 200 /\
  membership (leave leave_request sample_db).2 "t1" "u1" = [] /\
  teams (leave leave_request sample_db).2 = teams sample_db.
Proof.
  destruct (leave_removes_membership leave_request sample_db "u1")
    as [_ H]; [reflexivity|discriminate|discriminate|].
  destruct H as (H1 & H2 & _ & H4 & _); [discriminate|].
  split; [exact H1|]. split; [exact H2|exact H4].
Defined.

Lemma add_members_twice_witness :
  add_members sample_lib add_request
    (add_members sample_lib add_request sample_db).2 =
  (message_reply "All users are already members of this team" 400,
   (add_members sample_lib add_request sample_db).2).
Proof.
  exact (add_members_twice sample_lib add_request sample_db eq_refl).
Defined.

Lemma members_stay_unique_witness :
  unique_members (leave leave_request sample_db).2 /\
  unique_members (add_members sample_lib add_request sample_db).2 /\
  unique_members (create sample_lib create_request sample_db).2.
Proof.
  destruct (members_stay_unique sample_lib create_request sample_db
              sample_users_unique sample_members_unique) as (_ & _ & H3).
  destruct (members_stay_unique sample_lib add_request sample_db
              sample_users_unique sample_members_unique) as (_ & H2 & _).
  destruct (members_stay_unique sample_lib leave_request sample_db
              sample_users_unique sample_members_unique) as (H1 & _ & _).
  split; [exact H1|]. split; [exact H2|].
  exact (H3 sample_fresh).
Defined.

Lemma create_makes_team_witness :
  exists uid b rows,
    auth create_request = Some uid /\ uid <> "" /\
    json_body create_request = Some b /\
    users (create sample_lib create_request sample_db).2 = users sample_db /\
    teams (create sample_lib create_request sample_db).2 =
      teams sample_db ++
      [mkTeamRow (fresh_id create_request) (create_name b) uid
                 (dates create_request 0)] /\
    teamMembers (create sample_lib create_request sample_db).2 =
      teamMembers sample_db ++ rows /\
    Forall (fun m => m_teamId m = fresh_id create_request) rows /\
    m_userId <$> rows =
      with_creator uid (u_id <$> requested_users sample_db b) /\
    uid ∈ m_userId <$> rows /\
    (NoDup (u_id <$> users sample_db) -> NoDup (m_userId <$> rows)).
Proof.
  exact (create_makes_team sample_lib create_request sample_db eq_refl).
Defined.

Lemma create_accepts_registered_witness :
  code (create sample_lib create_request sample_db).1 = 200 <->
  forall e, e ∈ ["bob@call.dev"] -> registered sample_db e.
Proof.
  apply (create_accepts_registered sample_lib create_request sample_db "u1"
           design_body ["bob@call.dev"]);
    [reflexivity|discriminate|reflexivity|reflexivity|reflexivity|discriminate
    |exact sample_emails_unique|].
  apply (bool_decide_unpack _). exact I.
Defined.

Lemma add_members_repeated_address_witness :
  add_members sample_lib add_twice_request sample_db =
  (message_reply "Email(s) not registered: " 400, sample_db).
Proof.
  apply (proj2 (add_members_repeated_address sample_lib add_twice_request
                  sample_db "u1" bob_twice_body
                  eq_refl ltac:(discriminate) ltac:(discriminate)
                  eq_refl eq_refl sample_emails_unique bob_twice_repeats)).
  intros e He. unfold registered.
  apply list_elem_of_In in He. simpl in He.
  destruct He as [<-|[<-|[]]]; apply (bool_decide_unpack _); exact I.
Defined.




